(** * octokit.resources: the lazy Resource node

    A shallow embedding of [src/octokit/resources.py].  Python objects are
    modelled by values, the receiver of a method and the log of requests sent
    through the session are threaded through a small state-and-error monad,
    and Python exceptions are error results. *)

From Stdlib Require Import List String Ascii ZArith Bool Lia.
Import ListNotations.
Local Open Scope string_scope.
Local Open Scope Z_scope.
Local Set Warnings "-register-all".

(** ** Python values *)

(** The values the module manipulates: decoded JSON (numbers are integers
    here) and [Resource] objects.  A [Resource] has the instance attributes
    [url], [schema] and [name]; [url] and [schema] are only assigned under a
    condition in [__init__], so either may be missing ([None] of [option]).
    A [schema] that is present is always a dict: [__init__] assigns [{}] or
    the result of [parse_schema_dict].  The attribute [session] is the same
    object at every node and is a parameter of the model below. *)
Inductive value : Type :=
| VNone
| VBool (b : bool)
| VInt (z : Z)
| VStr (s : string)
| VList (l : list value)
| VDict (d : list (string * value))
| VRes (r : resource)
with resource : Type :=
| mkResource (r_url : option value)
             (r_schema : option (list (string * value)))
             (r_name : option string).

(** A dict keeps its items in insertion order, each key once. *)
Definition dict := list (string * value).

Definition url (r : resource) : option value :=
  match r with mkResource u _ _ => u end.
Definition schema (r : resource) : option dict :=
  match r with mkResource _ s _ => s end.
Definition name (r : resource) : option string :=
  match r with mkResource _ _ n => n end.

Definition set_schema (r : resource) (d : dict) : resource :=
  mkResource (url r) (Some d) (name r).

(** Truth value of an object, as tested by [if url:], [if schema:],
    [if data[key]:] and [if self.schema:].  [Resource] defines neither
    [__bool__] nor [__len__], so an instance is true. *)
Definition truthy (v : value) : bool :=
  match v with
  | VNone => false
  | VBool b => b
  | VInt z => negb (z =? 0)
  | VStr s => negb (s =? "")%string
  | VList l => match l with [] => false | _ => true end
  | VDict d => match d with [] => false | _ => true end
  | VRes _ => true
  end.

(** ** Dicts *)

Fixpoint dict_get (k : string) (d : dict) : option value :=
  match d with
  | [] => None
  | (k', v) :: d' => if (k' =? k)%string then Some v else dict_get k d'
  end.

(** [d[k] = v]: an existing key keeps its position. *)
Fixpoint dict_set (k : string) (v : value) (d : dict) : dict :=
  match d with
  | [] => [(k, v)]
  | (k', v') :: d' =>
      if (k' =? k)%string then (k', v) :: d' else (k', v') :: dict_set k v d'
  end.

(** [d.keys()] *)
Definition dict_keys (d : dict) : list string := map fst d.

(** ** Strings *)

(** [s.endswith(suf)] *)
Fixpoint endswith (suf s : string) : bool :=
  if (s =? suf)%string then true
  else match s with
       | EmptyString => false
       | String _ s' => endswith suf s'
       end.

(** [s.split(sep)[0]]: the part of [s] before the first occurrence of
    [sep], all of [s] when there is none. *)
Fixpoint split_head (sep s : string) : string :=
  if String.prefix sep s then EmptyString
  else match s with
       | EmptyString => EmptyString
       | String c s' => String c (split_head sep s')
       end.

(** [sep.join(l)] *)
Fixpoint join (sep : string) (l : list string) : string :=
  match l with
  | [] => EmptyString
  | [x] => x
  | x :: l' => (x ++ sep ++ join sep l')%string
  end.

(** [str(name)], as [%s] formats the label of a node. *)
Definition str_of_name (n : option string) : string :=
  match n with
  | Some s => s
  | None => "None"
  end.

(** ** Requests, responses, exceptions *)

Record request : Type := mkRequest {
  req_method : string;
  req_url : string;
  req_params : dict
}.

(** What the module reads of a response: [status_code], [text] and the
    result of [json()] ([None] when decoding raises). *)
Record response : Type := mkResponse {
  status_code : Z;
  text : string;
  json : option value
}.

Inductive error : Type :=
| HTTPError (code : Z)      (* raised by handle_status *)
| TransportError            (* raised by the session *)
| ValueError                (* response.json() on a malformed body *)
| UnknownResponse           (* Exception("Unknown type of response from the API.") *)
| TypeError
| AttributeError
| KeyError
| NameError
| RecursionError.

(** ** The method monad

    A computation runs with a receiver ([self]) and the log of the requests
    sent so far (newest first).  An exception keeps the state reached when it
    was raised. *)
Record state : Type := mkState {
  self : resource;
  log : list request
}.

Definition M (A : Type) : Type := state -> (error + A) * state.

Definition ret {A} (a : A) : M A := fun st => (inr a, st).
Definition raise {A} (e : error) : M A := fun st => (inl e, st).
Definition bind {A B} (m : M A) (f : A -> M B) : M B :=
  fun st =>
    match m st with
    | (inl e, st') => (inl e, st')
    | (inr a, st') => f a st'
    end.

Notation "x <- m ;; k" := (bind m (fun x => k))
  (at level 61, m at next level, right associativity).
Notation "m ;;; k" := (bind m (fun _ => k))
  (at level 61, right associativity).

Definition get_self : M resource := fun st => (inr (self st), st).
Definition put_self (r : resource) : M unit :=
  fun st => (inr tt, mkState r (log st)).

(** A method call on another object [r]: the caller's receiver is restored
    afterwards; the callee is a temporary and its final state is dropped. *)
Definition call_on {A} (r : resource) (m : M A) : M A :=
  fun st =>
    let '(res, st') := m (mkState r (log st)) in
    (res, mkState (self st) (log st')).

(** Modelled from the spec: [handle_status] lives in [octokit/exceptions.py],
    which is not part of the sources at hand.  Following sections 4.4 and 7
    of the specification, a status code outside the success range 200..299
    raises an error that carries the code; a code inside it returns. *)
Definition handle_status (code : Z) : M unit :=
  if (200 <=? code) && (code <? 300) then ret tt else raise (HTTPError code).

(** The bindings [fetch_resource] expands the template with: a single
    positional argument is bound to the single variable of the template,
    [kwargs[variables.pop()] = args[0]]; otherwise [kwargs] is left as it
    is. *)
Definition bound_kwargs (args : list value) (vars : list string)
  (kwargs : dict) : dict :=
  match args, vars with
  | [a], [v] => dict_set v a kwargs
  | _, _ => kwargs
  end.

(** ** The class [Resource] *)

Section ResourceClass.

(** [inflection.humanize] and [inflection.singularize] on strings. *)
Variables humanize singularize : string -> string.
(** [uritemplate.variables] and [uritemplate.expand] on a template. *)
Variable uri_variables : string -> list string.
Variable uri_expand : string -> dict -> string.
(** The session: [send n req] is what
    [session.send(session.prepare_request(req))] gives for the request
    sent after [n] earlier ones; [None] when the transport raises. *)
Variable send : nat -> request -> option response.
(** [self.get()] with no argument, as called from inside the class. *)
Variable get_hook : M resource.

(** Both inflection functions apply a regular expression to their
    argument and raise [TypeError] on [None]. *)
Definition py_humanize (n : option string) : M string :=
  match n with Some s => ret (humanize s) | None => raise TypeError end.
Definition py_singularize (n : option string) : M string :=
  match n with Some s => ret (singularize s) | None => raise TypeError end.

(** Reading [self.schema].  When the attribute is missing Python falls
    back to [__getattr__('schema')], whose first statement is
    [ensure_schema_loaded()], which reads [self.schema] again: the
    recursion ends in [RecursionError]. *)
Definition self_schema : M dict :=
  r <- get_self ;;
  match schema r with
  | Some d => ret d
  | None => raise RecursionError
  end.

Definition ensure_schema_loaded : M unit :=
  d <- self_schema ;;
  if truthy (VDict d) then ret tt
  else
    r' <- get_hook ;;
    d' <- call_on r' self_schema ;;
    r <- get_self ;;
    put_self (set_schema r d').

(** [__getattr__(name)].  [raise handle_status(404)] first evaluates the
    call; were it to return, raising its result [None] is a [TypeError]. *)
Definition getattr (nm : string) : M value :=
  ensure_schema_loaded ;;;
  d <- self_schema ;;
  match dict_get nm d with
  | Some v => ret v
  | None => handle_status 404 ;;; raise TypeError
  end.

(** [__getitem__(name)]; the keys of a schema are strings. *)
Definition getitem (key : value) : M value :=
  ensure_schema_loaded ;;;
  d <- self_schema ;;
  match key with
  | VStr k =>
      match dict_get k d with Some v => ret v | None => raise KeyError end
  | _ => raise KeyError
  end.

Definition keys : M (list string) :=
  ensure_schema_loaded ;;;
  d <- self_schema ;;
  ret (dict_keys d).

(** Reading [self.url]; a missing attribute goes through [__getattr__]. *)
Definition self_url : M value :=
  r <- get_self ;;
  match url r with
  | Some u => ret u
  | None => getattr "url"
  end.

Definition variables : M (list string) :=
  u <- self_url ;;
  match u with
  | VStr t => ret (uri_variables t)
  | _ => raise TypeError
  end.

(** The loop of [parse_schema_list], over the constructor [init] of the
    items.  [name] is reassigned at every iteration. *)
Definition parse_list_with (init : value -> option string -> M resource)
  : list value -> option string -> M (list value) :=
  fix loop (data : list value) (nm : option string) : M (list value) :=
    match data with
    | [] => ret []
    | x :: data' =>
        s <- py_singularize nm ;;
        let nm' := humanize s in
        r <- init x (Some nm') ;;
        rest <- loop data' (Some nm') ;;
        ret (VRes r :: rest)
    end.

(** One turn of the loop of [parse_schema_dict]: the value stored for
    the field [key] of the data, whose value is [v]. *)
Definition parse_field (init : value -> option string -> M resource)
  (key : string) (v : value) : M value :=
  let nm := split_head "_url" key in
  if endswith "_url" key then
    if truthy v
    then ret (VRes (mkResource (Some v) (Some []) (Some (humanize nm))))
    else ret v
  else
    match v with
    | VDict _ => r <- init v (Some (humanize nm)) ;; ret (VRes r)
    | VList l => l' <- parse_list_with init l (Some nm) ;; ret (VList l')
    | _ => ret v
    end.

(** The loop of [parse_schema_dict] over the items of a dict, with the
    schema built so far.  The keys of a dict are distinct, so [data[key]] is
    the value of the item the loop is at. *)
Definition parse_dict_with (init : value -> option string -> M resource)
  : dict -> dict -> M dict :=
  fix loop (items acc : dict) : M dict :=
    match items with
    | [] => ret acc
    | (key, v) :: items' =>
        x <- parse_field init key v ;;
        loop items' (dict_set (split_head "_url" key) x acc)
    end.

(** ['url' in l] for a list: some item equals the string. *)
Definition list_has_url (l : list value) : bool :=
  existsb (fun v => match v with VStr s => (s =? "url")%string | _ => false end) l.

(** [parse_schema_dict] reached with a list: the first [key] is an item of
    the list.  A string has [split] but cannot index the list; a
    [Resource] answers [key.split] through [__getattr__], the value found
    is then called and the result indexed with [0]; other items have no
    [split]. *)
Definition parse_dict_on_list (l : list value) : M dict :=
  match l with
  | [] => ret []
  | VStr _ :: _ => raise TypeError
  | VRes r :: _ =>
      f <- call_on r (getattr "split") ;;
      match f with
      | VRes r2 =>
          r3 <- call_on r2 get_hook ;;
          call_on r3 (getitem (VInt 0)) ;;;
          raise KeyError
      | _ => raise TypeError
      end
  | _ :: _ => raise AttributeError
  end.

(** [Resource(session, url=u, schema=sch, name=nm)].  [url=None] and
    [schema=None] are the defaults.  The second test calls
    [parse_schema_dict] on whatever true object [schema] is. *)
Fixpoint Resource_init (u : option value) (sch : value) (nm : option string)
  {struct sch} : M resource :=
  let r0 :=
    match u with
    | Some uv =>
        if truthy uv then mkResource (Some uv) (Some []) nm
        else mkResource None None nm
    | None => mkResource None None nm
    end in
  if truthy sch then
    match sch with
    | VDict d =>
        let r1 :=
          match dict_get "url" d with
          | Some x => mkResource (Some x) (schema r0) nm
          | None => r0
          end in
        d' <- parse_dict_with (Resource_init None) d [] ;;
        ret (set_schema r1 d')
    | VList l =>
        if list_has_url l then raise TypeError
        else d' <- parse_dict_on_list l ;; ret (set_schema r0 d')
    | VRes r =>
        (* ['url' in schema] iterates with [schema[0]], [schema[1]], ...;
           the first lookup already raises *)
        call_on r (getitem (VInt 0)) ;;; raise KeyError
    | VNone | VBool _ | VInt _ | VStr _ => raise TypeError
    end
  else ret r0.

Definition parse_schema_dict (data : dict) : M dict :=
  parse_dict_with (Resource_init None) data [].

Definition parse_schema_list (data : list value) (nm : option string)
  : M (list value) :=
  parse_list_with (Resource_init None) data nm.

(** [session.send(session.prepare_request(req))], logged. *)
Definition session_send (req : request) : M response :=
  fun st =>
    let st' := mkState (self st) (req :: log st) in
    match send (List.length (log st)) req with
    | Some resp => (inr resp, st')
    | None => (inl TransportError, st')
    end.

(** [fetch_schema] once the response is there: the status check, the
    decoding of the body and the parsing by type. *)
Definition decode_response (resp : response) : M value :=
  handle_status (status_code resp) ;;;
  data <- (if (text resp =? "")%string then ret (VDict [])
           else match json resp with
                | Some v => ret v
                | None => raise ValueError
                end) ;;
  match data with
  | VDict d => d' <- parse_schema_dict d ;; ret (VDict d')
  | VList l =>
      r <- get_self ;;
      l' <- parse_schema_list l (name r) ;; ret (VList l')
  | _ => raise UnknownResponse
  end.

Definition fetch_schema (req : request) : M value :=
  resp <- session_send req ;;
  decode_response resp.

Definition fetch_resource (method : string) (request_params : dict)
  (args : list value) (kwargs : dict) : M resource :=
  vars <- variables ;;
  let kwargs' := bound_kwargs args vars kwargs in
  u <- self_url ;;
  match u with
  | VStr t =>
      let url' := uri_expand t kwargs' in
      sch <- fetch_schema (mkRequest method url' request_params) ;;
      r <- get_self ;;
      nm <- py_humanize (name r) ;;
      Resource_init (Some (VStr url')) sch (Some nm)
  | _ => raise TypeError
  end.

Definition head := fetch_resource "HEAD".
Definition get := fetch_resource "GET".
(** [post] is declared without [self]: its body refers to a name [self]
    that is bound nowhere. *)
Definition post (request_params : dict) (args : list value) (kwargs : dict)
  : M resource := raise NameError.
Definition put := fetch_resource "PUT".
Definition patch := fetch_resource "PATCH".
Definition delete := fetch_resource "DELETE".
Definition options := fetch_resource "OPTIONS".


(** [__repr__].  The schema of a node is a dict, so the subtitle is the
    joined keys. *)
Definition repr : M string :=
  ensure_schema_loaded ;;;
  d <- self_schema ;;
  r <- get_self ;;
  ret ("<Octokit " ++ str_of_name (name r) ++ "("
         ++ join ", " (dict_keys d) ++ ")>")%string.

End ResourceClass.

(** ** Tying the knot

    [self.get()] inside the class is the method [get] itself.  The depth of
    such nested calls is bounded by [fuel]; running out of it is Python's
    [RecursionError]. *)
Section Knot.

Variables humanize singularize : string -> string.
Variable uri_variables : string -> list string.
Variable uri_expand : string -> dict -> string.
Variable send : nat -> request -> option response.

Fixpoint get_fuel (fuel : nat) : M resource :=
  match fuel with
  | O => raise RecursionError
  | S n =>
      get humanize singularize uri_variables uri_expand send (get_fuel n)
          [] [] []
  end.

(** The public operations of a node, run from a receiver and a log. *)
Definition node_verb (fuel : nat) (method : string) (request_params : dict)
  (args : list value) (kwargs : dict) : M resource :=
  fetch_resource humanize singularize uri_variables uri_expand send
                 (get_fuel fuel) method request_params args kwargs.

Definition node_post (fuel : nat) (request_params : dict)
  (args : list value) (kwargs : dict) : M resource :=
  post request_params args kwargs.

Definition node_getattr (fuel : nat) (nm : string) : M value :=
  getattr (get_fuel fuel) nm.

Definition node_keys (fuel : nat) : M (list string) :=
  keys (get_fuel fuel).




Definition node_repr (fuel : nat) : M string :=
  repr (get_fuel fuel).

Definition node_parse_schema_dict (fuel : nat) (data : dict) : M dict :=
  parse_schema_dict humanize singularize (get_fuel fuel) data.

Definition node_parse_schema_list (fuel : nat) (data : list value)
  (nm : option string) : M (list value) :=
  parse_schema_list humanize singularize (get_fuel fuel) data nm.

(** [Resource(session, url=u, schema=sch, name=nm)]; [VNone] is the default
    of [schema]. *)
Definition node_new (fuel : nat) (u : option value) (sch : value)
  (nm : option string) : M resource :=
  Resource_init humanize singularize (get_fuel fuel) u sch nm.

End Knot.

(** * Vocabulary of the statements *)

Local Open Scope list_scope.

(** ** A verb call, step by step *)

Section VerbCall.

Variables humanize singularize : string -> string.
Variable uri_variables : string -> list string.
Variable uri_expand : string -> dict -> string.
Variable get_hook : M resource.

(** The request a verb call builds on a node whose [url] is the template
    [t]. *)
Definition request_of (method t : string) (request_params : dict)
  (args : list value) (kwargs : dict) : request :=
  mkRequest method
            (uri_expand t (bound_kwargs args (uri_variables t) kwargs))
            request_params.

(** What [fetch_resource] does with the response. *)
Definition wrap_response (url' : string) (resp : response) : M resource :=
  sch <- decode_response humanize singularize get_hook resp ;;
  r <- get_self ;;
  nm <- py_humanize humanize (name r) ;;
  Resource_init humanize singularize get_hook (Some (VStr url')) sch (Some nm).

End VerbCall.

(** ** Fields and load state *)

(** The name [parse_schema_dict] stores the field [key] under. *)
Definition stored_name (key : string) : string := split_head "_url" key.

(** No field of [post] is stored under the name [k]. *)
Definition not_overwritten (k : string) (post : dict) : Prop :=
  Forall (fun kv => stored_name (fst kv) <> k) post.

(** The test of [ensure_schema_loaded]: the schema is there and not empty. *)
Definition is_loaded (r : resource) : bool :=
  match schema r with
  | Some (_ :: _) => true
  | _ => false
  end.


(** What [__getattr__] gives for [nm] on a node whose non-empty schema is
    [d]. *)
Definition lookup_result (nm : string) (d : dict) : error + value :=
  match dict_get nm d with
  | Some v => inr v
  | None => inl (HTTPError 404)
  end.


(** A decoded JSON scalar: [null], a boolean, a number or a string. *)
Definition is_scalar (v : value) : bool :=
  match v with
  | VNone | VBool _ | VInt _ | VStr _ => true
  | _ => false
  end.

(** The label after [n] turns of the loop of [parse_schema_list], which
    reassigns [name = humanize(singularize(name))] at every turn. *)
Definition relabel (humanize singularize : string -> string) (n : nat)
  (nm : string) : string :=
  Nat.iter n (fun x => humanize (singularize x)) nm.

(** The [url] the constructor gives a node before it looks at [schema]:
    the argument when it is true. *)
Definition url_given (u : option value) : option value :=
  match u with
  | Some uv => if truthy uv then Some uv else None
  | None => None
  end.

(** What [__repr__] prints for a label and the keys of the schema. *)
Definition repr_text (n : option string) (ks : list string) : string :=
  ("<Octokit " ++ str_of_name n ++ "(" ++ join ", " ks ++ ")>")%string.

(** A decoded JSON scalar that is true: a non-zero number, [true] or a
    non-empty string. *)
Definition true_scalar (v : value) : bool :=
  match v with
  | VBool b => b
  | VInt z => negb (z =? 0)
  | VStr s => negb (s =? "")%string
  | _ => false
  end.

(** A value that [parse_schema_dict] stores as it is when it meets it
    again: a scalar, a node, or an empty list. *)
Definition settled (v : value) : bool :=
  match v with
  | VNone | VBool _ | VInt _ | VStr _ | VRes _ => true
  | VList [] => true
  | VList (_ :: _) => false
  | VDict _ => false
  end.

(** ** What a computation does to the state *)

(** The receiver is the same object with the same attributes afterwards. *)
Definition keeps_self {A} (m : M A) : Prop :=
  forall st, self (snd (m st)) = self st.

(** Requests are only ever added to the log. *)
Definition log_ext {A} (m : M A) : Prop :=
  forall st, exists ext, log (snd (m st)) = ext ++ log st.

(** A normal return has changed nothing: no request, no assignment. *)
Definition silent {A} (m : M A) : Prop :=
  forall st a st', m st = (inr a, st') -> st' = st.

(** The computation always raises. *)
Definition fails {A} (m : M A) : Prop :=
  forall st a st', m st <> (inr a, st').

(** ** Stand-ins for the third-party functions, for concrete runs

    [capitalize] agrees with [inflection.humanize] on a lower-case word with
    no underscore, [drop_s] with [inflection.singularize] on a regular plural
    in [s], and the two template functions with [uritemplate] on templates
    whose expressions are plain [{var}] and on values made of unreserved
    characters. *)
Definition upper (c : ascii) : ascii :=
  let n := nat_of_ascii c in
  if ((97 <=? n) && (n <=? 122))%nat then ascii_of_nat (n - 32) else c.

Definition capitalize (s : string) : string :=
  match s with
  | EmptyString => EmptyString
  | String c s' => String (upper c) s'
  end.

Fixpoint drop_s (s : string) : string :=
  match s with
  | EmptyString => EmptyString
  | String c s' =>
      if ((s' =? "")%string && (c =? "s")%char)%bool then EmptyString
      else String c (drop_s s')
  end.

(** Scans a template; [cur] is the name being read inside braces. *)
Fixpoint tpl_scan (t : string) (cur : option string) : list string :=
  match t with
  | EmptyString => []
  | String c t' =>
      match cur with
      | None =>
          if (c =? "{")%char then tpl_scan t' (Some EmptyString)
          else tpl_scan t' None
      | Some v =>
          if (c =? "}")%char then v :: tpl_scan t' None
          else tpl_scan t' (Some (v ++ String c EmptyString)%string)
      end
  end.

Definition tpl_variables (t : string) : list string :=
  nodup string_dec (tpl_scan t None).

Fixpoint tpl_fill (t : string) (cur : option string) (b : dict) : string :=
  match t with
  | EmptyString => EmptyString
  | String c t' =>
      match cur with
      | None =>
          if (c =? "{")%char then tpl_fill t' (Some EmptyString) b
          else String c (tpl_fill t' None b)
      | Some v =>
          if (c =? "}")%char then
            (match dict_get v b with
             | Some (VStr s) => s
             | _ => EmptyString
             end ++ tpl_fill t' None b)%string
          else tpl_fill t' (Some (v ++ String c EmptyString)%string) b
      end
  end.

Definition tpl_expand (t : string) (b : dict) : string := tpl_fill t None b.

Definition run {A} (m : M A) (r : resource) (lg : list request) :=
  m (mkState r lg).

Definition T_verb := node_verb capitalize drop_s tpl_variables tpl_expand.
Definition T_keys := node_keys capitalize drop_s tpl_variables tpl_expand.
Definition T_getattr := node_getattr capitalize drop_s tpl_variables tpl_expand.
Definition root := mkResource (Some (VStr "https://x/")) (Some []) (Some "root").
Definition always (v : option value) (t : string) : nat -> request -> option response :=
  fun _ _ => Some (mkResponse 200 t v).



Definition get_root : request := mkRequest "GET" "https://x/" [].

Definition T_repr := node_repr capitalize drop_s tpl_variables tpl_expand.
Definition T_parse_dict :=
  node_parse_schema_dict capitalize drop_s tpl_variables tpl_expand.
Definition T_parse_list :=
  node_parse_schema_list capitalize drop_s tpl_variables tpl_expand.
Definition T_new := node_new capitalize drop_s tpl_variables tpl_expand.

Definition user_schema : dict := [("login", VStr "a"); ("id", VInt 1)].
Definition user_node : resource := mkResource None (Some user_schema) (Some "User").
Definition ok_json (v : value) : nat -> request -> option response :=
  always (Some v) "...".

Definition user_body : value :=
  VDict [("login", VStr "a"); ("repos_url", VStr "https://x/repos");
         ("plan", VDict [("name", VStr "free")])].

Definition user_parsed : dict :=
  [("login", VStr "a");
   ("repos", VRes (mkResource (Some (VStr "https://x/repos")) (Some [])
                              (Some "Repos")));
   ("plan", VRes (mkResource None (Some [("name", VStr "free")])
                             (Some "Plan")))].



Definition repo_node : resource :=
  mkResource (Some (VStr "https://x/repos/{owner}/{repo}")) (Some [])
             (Some "root").

Definition owner_node : resource :=
  mkResource (Some (VStr "https://x/users/{owner}")) (Some []) (Some "root").


(** * Properties *)

(** ** Induction on nested values *)

Section ValueInd.

Variable P : value -> Prop.
Hypothesis HNone : P VNone.
Hypothesis HBool : forall b, P (VBool b).
Hypothesis HInt : forall z, P (VInt z).
Hypothesis HStr : forall s, P (VStr s).
Hypothesis HList : forall l, Forall P l -> P (VList l).
Hypothesis HDict : forall d, Forall (fun kv => P (snd kv)) d -> P (VDict d).
Hypothesis HRes : forall r, P (VRes r).

Fixpoint value_nested_ind (v : value) : P v :=
  match v with
  | VNone => HNone
  | VBool b => HBool b
  | VInt z => HInt z
  | VStr s => HStr s
  | VList l =>
      HList l
        ((fix go (l : list value) : Forall P l :=
            match l with
            | [] => Forall_nil P
            | x :: l' => Forall_cons x (value_nested_ind x) (go l')
            end) l)
  | VDict d =>
      HDict d
        ((fix go (d : dict) : Forall (fun kv => P (snd kv)) d :=
            match d with
            | [] => Forall_nil _
            | kv :: d' =>
                Forall_cons kv (value_nested_ind (snd kv)) (go d')
            end) d)
  | VRes r => HRes r
  end.

End ValueInd.

Lemma bind_inr {A B} (m : M A) (f : A -> M B) st b st' :
  bind m f st = (inr b, st') ->
  exists a st1, m st = (inr a, st1) /\ f a st1 = (inr b, st').
Proof.
  unfold bind. destruct (m st) as [[e | a] st1]; intros H.
  - discriminate.
  - exists a, st1. split; [reflexivity | exact H].
Qed.

Lemma bind_inl {A B} (m : M A) (f : A -> M B) st e st' :
  bind m f st = (inl e, st') ->
  m st = (inl e, st') \/
  exists a st1, m st = (inr a, st1) /\ f a st1 = (inl e, st').
Proof.
  unfold bind. destruct (m st) as [[e1 | a] st1]; intros H.
  - left. inversion H. reflexivity.
  - right. exists a, st1. split; [reflexivity | exact H].
Qed.

Lemma fails_raise {A} e : fails (@raise A e).
Proof. intros st a st' H. discriminate H. Qed.

Lemma fails_bind_l {A B} (m : M A) (f : A -> M B) : fails m -> fails (bind m f).
Proof.
  intros Hm st b st' H. apply bind_inr in H as (a & st1 & H1 & _).
  exact (Hm _ _ _ H1).
Qed.

Lemma fails_bind_r {A B} (m : M A) (f : A -> M B) :
  (forall a, fails (f a)) -> fails (bind m f).
Proof.
  intros Hf st b st' H. apply bind_inr in H as (a & st1 & _ & H2).
  exact (Hf _ _ _ _ H2).
Qed.

Lemma fails_silent {A} (m : M A) : fails m -> silent m.
Proof. intros Hm st a st' H. destruct (Hm _ _ _ H). Qed.

Lemma silent_ret {A} (a : A) : silent (ret a).
Proof. intros st b st' H. inversion H. reflexivity. Qed.

Lemma silent_bind {A B} (m : M A) (f : A -> M B) :
  silent m -> (forall a, silent (f a)) -> silent (bind m f).
Proof.
  intros Hm Hf st b st' H. apply bind_inr in H as (a & st1 & H1 & H2).
  apply Hm in H1. subst st1. exact (Hf _ _ _ _ H2).
Qed.

Lemma keeps_self_ret {A} (a : A) : keeps_self (ret a).
Proof. intros st. reflexivity. Qed.

Lemma keeps_self_raise {A} e : keeps_self (@raise A e).
Proof. intros st. reflexivity. Qed.

Lemma keeps_self_bind {A B} (m : M A) (f : A -> M B) :
  keeps_self m -> (forall a, keeps_self (f a)) -> keeps_self (bind m f).
Proof.
  intros Hm Hf st. unfold bind. specialize (Hm st).
  destruct (m st) as [[e | a] st1]; simpl in *.
  - exact Hm.
  - rewrite Hf. exact Hm.
Qed.

Lemma keeps_self_call_on {A} r (m : M A) : keeps_self (call_on r m).
Proof.
  intros st. unfold call_on.
  destruct (m (mkState r (log st))) as [res st1]. reflexivity.
Qed.

Lemma log_ext_ret {A} (a : A) : log_ext (ret a).
Proof. intros st. exists []. reflexivity. Qed.

Lemma log_ext_raise {A} e : log_ext (@raise A e).
Proof. intros st. exists []. reflexivity. Qed.

Lemma log_ext_bind {A B} (m : M A) (f : A -> M B) :
  log_ext m -> (forall a, log_ext (f a)) -> log_ext (bind m f).
Proof.
  intros Hm Hf st. unfold bind. destruct (Hm st) as [e1 H1].
  destruct (m st) as [[e | a] st1]; simpl in *.
  - exists e1. exact H1.
  - destruct (Hf a st1) as [e2 H2]. exists (e2 ++ e1).
    rewrite H2, H1. apply app_assoc.
Qed.

Lemma log_ext_call_on {A} r (m : M A) : log_ext m -> log_ext (call_on r m).
Proof.
  intros Hm st. unfold call_on. destruct (Hm (mkState r (log st))) as [e H].
  destruct (m (mkState r (log st))) as [res st1]. simpl in *.
  exists e. exact H.
Qed.

(** ** The constructor preserves every compositional property

    [Good] is any property of computations that holds of [ret] and [raise],
    is closed under [bind], and holds of the two places where [__init__]
    meets a [Resource] in its [schema] argument. *)
Section InitInvariant.

Variables humanize singularize : string -> string.
Variable get_hook : M resource.
Variable Good : forall A, M A -> Prop.

Hypothesis good_ret : forall A (a : A), Good A (ret a).
Hypothesis good_raise : forall A e, Good A (raise e).
Hypothesis good_bind : forall A B (m : M A) (f : A -> M B),
  Good A m -> (forall a, Good B (f a)) -> Good B (bind m f).
Hypothesis good_on_list : forall l, Good dict (parse_dict_on_list get_hook l).
Hypothesis good_on_res : forall r,
  Good resource
       (bind (call_on r (getitem get_hook (VInt 0))) (fun _ => raise KeyError)).

Lemma good_py_singularize nm : Good _ (py_singularize singularize nm).
Proof. destruct nm; simpl; auto. Qed.

Lemma good_parse_list_with init data :
  Forall (fun x => forall nm, Good _ (init x nm)) data ->
  forall nm, Good _ (parse_list_with humanize singularize init data nm).
Proof.
  induction 1 as [| x data Hx _ IH]; intros nm; simpl.
  - apply good_ret.
  - apply good_bind; [apply good_py_singularize | intros s].
    apply good_bind; [apply Hx | intros r].
    apply good_bind; [apply IH | intros rest]. apply good_ret.
Qed.

Let init := Resource_init humanize singularize get_hook.

(** The property at a value and, for a list, at each of its items. *)
Definition deep_good (v : value) : Prop :=
  (forall u nm, Good _ (init u v nm)) /\
  match v with
  | VList l => Forall (fun x => forall u nm, Good _ (init u x nm)) l
  | _ => True
  end.

Lemma good_parse_field key v :
  deep_good v ->
  Good _ (parse_field humanize singularize (init None) key v).
Proof.
  intros [Hv Hl]. unfold parse_field.
  destruct (endswith "_url" key).
  - destruct (truthy v); apply good_ret.
  - destruct v; try apply good_ret.
    + apply good_bind; [| intros l'; apply good_ret].
      apply good_parse_list_with.
      eapply Forall_impl; [| exact Hl]. intros x Hx nm. apply Hx.
    + apply good_bind; [apply Hv | intros r; apply good_ret].
Qed.

Lemma good_parse_dict_with items :
  Forall (fun kv => deep_good (snd kv)) items ->
  forall acc,
    Good _ (parse_dict_with humanize singularize (init None) items acc).
Proof.
  induction 1 as [| [key v] items Hv _ IH]; intros acc; simpl.
  - apply good_ret.
  - apply good_bind; [apply good_parse_field, Hv | intros x; apply IH].
Qed.

Lemma good_Resource_init_deep : forall v, deep_good v.
Proof.
  induction v using value_nested_ind; split; try exact I;
    try (intros u nm; unfold init; simpl).
  - destruct u as [uv |]; [destruct (truthy uv) |]; apply good_ret.
  - destruct b; [apply good_raise |].
    destruct u as [uv |]; [destruct (truthy uv) |]; apply good_ret.
  - destruct (negb (z =? 0)); [apply good_raise |].
    destruct u as [uv |]; [destruct (truthy uv) |]; apply good_ret.
  - destruct (negb (s =? "")%string); [apply good_raise |].
    destruct u as [uv |]; [destruct (truthy uv) |]; apply good_ret.
  - (* a list *)
    destruct l as [| x l]; [apply good_ret |].
    destruct (list_has_url (x :: l)); [apply good_raise |].
    apply good_bind; [apply good_on_list | intros d'; apply good_ret].
  - eapply Forall_impl; [| exact H]. intros x Hx. apply Hx.
  - (* a dict *)
    destruct d as [| kv d]; [apply good_ret |].
    apply good_bind; [| intros d'; apply good_ret].
    apply good_parse_dict_with. exact H.
  - (* a Resource *)
    apply good_on_res.
Qed.

Theorem good_Resource_init u sch nm : Good _ (init u sch nm).
Proof. apply good_Resource_init_deep. Qed.

Theorem good_parse_field_any key v :
  Good _ (parse_field humanize singularize (init None) key v).
Proof. apply good_parse_field, good_Resource_init_deep. Qed.

Theorem good_parse_schema_dict data :
  Good _ (parse_schema_dict humanize singularize get_hook data).
Proof.
  apply good_parse_dict_with. apply Forall_forall. intros kv _.
  apply good_Resource_init_deep.
Qed.

Theorem good_parse_schema_list data nm :
  Good _ (parse_schema_list humanize singularize get_hook data nm).
Proof.
  apply good_parse_list_with. apply Forall_forall. intros x _ nm'.
  apply good_Resource_init.
Qed.

End InitInvariant.

(** ** The three instances *)

Section Frames.

Variables humanize singularize : string -> string.
Variable uri_variables : string -> list string.
Variable uri_expand : string -> dict -> string.
Variable send : nat -> request -> option response.
Variable get_hook : M resource.

Lemma silent_raise {A} e : silent (@raise A e).
Proof. apply fails_silent, fails_raise. Qed.

Lemma fails_parse_dict_on_list x l :
  fails (parse_dict_on_list get_hook (x :: l)).
Proof.
  destruct x; simpl; try apply fails_raise.
  apply fails_bind_r. intros f.
  destruct f; try apply fails_raise.
  apply fails_bind_r. intros r3. apply fails_bind_r. intros _.
  apply fails_raise.
Qed.

Lemma silent_Resource_init u sch nm :
  silent (Resource_init humanize singularize get_hook u sch nm).
Proof.
  apply (good_Resource_init humanize singularize get_hook (@silent)).
  - intros A a. apply silent_ret.
  - intros A e. apply silent_raise.
  - intros A B m f. apply silent_bind.
  - intros [| x l]; [apply silent_ret |].
    apply fails_silent, fails_parse_dict_on_list.
  - intros r. apply fails_silent, fails_bind_r. intros _. apply fails_raise.
Qed.

Lemma silent_parse_schema_dict data :
  silent (parse_schema_dict humanize singularize get_hook data).
Proof.
  apply (good_parse_schema_dict humanize singularize get_hook (@silent)).
  - intros A a. apply silent_ret.
  - intros A e. apply silent_raise.
  - intros A B m f. apply silent_bind.
  - intros [| x l]; [apply silent_ret |].
    apply fails_silent, fails_parse_dict_on_list.
  - intros r. apply fails_silent, fails_bind_r. intros _. apply fails_raise.
Qed.

Lemma silent_parse_schema_list data nm :
  silent (parse_schema_list humanize singularize get_hook data nm).
Proof.
  apply (good_parse_schema_list humanize singularize get_hook (@silent)).
  - intros A a. apply silent_ret.
  - intros A e. apply silent_raise.
  - intros A B m f. apply silent_bind.
  - intros [| x l]; [apply silent_ret |].
    apply fails_silent, fails_parse_dict_on_list.
  - intros r. apply fails_silent, fails_bind_r. intros _. apply fails_raise.
Qed.

Lemma silent_parse_field key v :
  silent (parse_field humanize singularize
            (Resource_init humanize singularize get_hook None) key v).
Proof.
  apply (good_parse_field_any humanize singularize get_hook (@silent)).
  - intros A a. apply silent_ret.
  - intros A e. apply silent_raise.
  - intros A B m f. apply silent_bind.
  - intros [| x l]; [apply silent_ret |].
    apply fails_silent, fails_parse_dict_on_list.
  - intros r. apply fails_silent, fails_bind_r. intros _. apply fails_raise.
Qed.

Lemma keeps_self_parse_dict_on_list l :
  keeps_self (parse_dict_on_list get_hook l).
Proof.
  destruct l as [| x l]; [apply keeps_self_ret |].
  destruct x; simpl; try apply keeps_self_raise.
  apply keeps_self_bind; [apply keeps_self_call_on | intros f].
  destruct f; try apply keeps_self_raise.
  apply keeps_self_bind; [apply keeps_self_call_on | intros r3].
  apply keeps_self_bind; [apply keeps_self_call_on | intros _].
  apply keeps_self_raise.
Qed.

Lemma keeps_self_on_res r :
  keeps_self (bind (call_on r (getitem get_hook (VInt 0)))
                   (fun _ => @raise resource KeyError)).
Proof.
  apply keeps_self_bind; [apply keeps_self_call_on | intros _].
  apply keeps_self_raise.
Qed.

Lemma keeps_self_Resource_init u sch nm :
  keeps_self (Resource_init humanize singularize get_hook u sch nm).
Proof.
  apply (good_Resource_init humanize singularize get_hook (@keeps_self)).
  - intros A a. apply keeps_self_ret.
  - intros A e. apply keeps_self_raise.
  - intros A B m f. apply keeps_self_bind.
  - apply keeps_self_parse_dict_on_list.
  - apply keeps_self_on_res.
Qed.

Lemma keeps_self_parse_schema_dict data :
  keeps_self (parse_schema_dict humanize singularize get_hook data).
Proof.
  apply (good_parse_schema_dict humanize singularize get_hook (@keeps_self)).
  - intros A a. apply keeps_self_ret.
  - intros A e. apply keeps_self_raise.
  - intros A B m f. apply keeps_self_bind.
  - apply keeps_self_parse_dict_on_list.
  - apply keeps_self_on_res.
Qed.

Lemma keeps_self_parse_schema_list data nm :
  keeps_self (parse_schema_list humanize singularize get_hook data nm).
Proof.
  apply (good_parse_schema_list humanize singularize get_hook (@keeps_self)).
  - intros A a. apply keeps_self_ret.
  - intros A e. apply keeps_self_raise.
  - intros A B m f. apply keeps_self_bind.
  - apply keeps_self_parse_dict_on_list.
  - apply keeps_self_on_res.
Qed.

Lemma keeps_self_get_self : keeps_self get_self.
Proof. intros st. reflexivity. Qed.

Lemma keeps_self_session_send req : keeps_self (session_send send req).
Proof.
  intros st. unfold session_send.
  destruct (send (List.length (log st)) req); reflexivity.
Qed.

Lemma keeps_self_handle_status code : keeps_self (handle_status code).
Proof.
  unfold handle_status.
  destruct ((200 <=? code) && (code <? 300));
    [apply keeps_self_ret | apply keeps_self_raise].
Qed.

Lemma keeps_self_decode_response resp :
  keeps_self (decode_response humanize singularize get_hook resp).
Proof.
  unfold decode_response.
  apply keeps_self_bind; [apply keeps_self_handle_status | intros _].
  apply keeps_self_bind.
  - destruct (text resp =? "")%string; [apply keeps_self_ret |].
    destruct (json resp); [apply keeps_self_ret | apply keeps_self_raise].
  - intros data. destruct data; try apply keeps_self_raise.
    + apply keeps_self_bind; [apply keeps_self_get_self | intros r].
      apply keeps_self_bind;
        [apply keeps_self_parse_schema_list | intros l'; apply keeps_self_ret].
    + apply keeps_self_bind;
        [apply keeps_self_parse_schema_dict | intros d'; apply keeps_self_ret].
Qed.

End Frames.

(** ** Requests are only added *)

Section Logs.

Variables humanize singularize : string -> string.
Variable uri_variables : string -> list string.
Variable uri_expand : string -> dict -> string.
Variable send : nat -> request -> option response.
Variable get_hook : M resource.
Hypothesis log_ext_hook : log_ext get_hook.

Lemma log_ext_get_self : log_ext get_self.
Proof. intros st. exists []. reflexivity. Qed.

Lemma log_ext_put_self r : log_ext (put_self r).
Proof. intros st. exists []. reflexivity. Qed.

Lemma log_ext_self_schema : log_ext self_schema.
Proof.
  apply log_ext_bind; [apply log_ext_get_self | intros r].
  destruct (schema r); [apply log_ext_ret | apply log_ext_raise].
Qed.

Lemma log_ext_handle_status code : log_ext (handle_status code).
Proof.
  unfold handle_status.
  destruct ((200 <=? code) && (code <? 300));
    [apply log_ext_ret | apply log_ext_raise].
Qed.

Lemma log_ext_ensure_schema_loaded : log_ext (ensure_schema_loaded get_hook).
Proof.
  unfold ensure_schema_loaded.
  apply log_ext_bind; [apply log_ext_self_schema | intros d].
  destruct (truthy (VDict d)); [apply log_ext_ret |].
  apply log_ext_bind; [apply log_ext_hook | intros r'].
  apply log_ext_bind;
    [apply log_ext_call_on, log_ext_self_schema | intros d'].
  apply log_ext_bind; [apply log_ext_get_self | intros r].
  apply log_ext_put_self.
Qed.

Lemma log_ext_getattr nm : log_ext (getattr get_hook nm).
Proof.
  unfold getattr.
  apply log_ext_bind; [apply log_ext_ensure_schema_loaded | intros _].
  apply log_ext_bind; [apply log_ext_self_schema | intros d].
  destruct (dict_get nm d); [apply log_ext_ret |].
  apply log_ext_bind; [apply log_ext_handle_status | intros _].
  apply log_ext_raise.
Qed.

Lemma log_ext_getitem key : log_ext (getitem get_hook key).
Proof.
  unfold getitem.
  apply log_ext_bind; [apply log_ext_ensure_schema_loaded | intros _].
  apply log_ext_bind; [apply log_ext_self_schema | intros d].
  destruct key; try apply log_ext_raise.
  destruct (dict_get s d); [apply log_ext_ret | apply log_ext_raise].
Qed.

Lemma log_ext_keys : log_ext (keys get_hook).
Proof.
  unfold keys.
  apply log_ext_bind; [apply log_ext_ensure_schema_loaded | intros _].
  apply log_ext_bind; [apply log_ext_self_schema | intros d].
  apply log_ext_ret.
Qed.

Lemma log_ext_parse_dict_on_list l : log_ext (parse_dict_on_list get_hook l).
Proof.
  destruct l as [| x l]; [apply log_ext_ret |].
  destruct x; simpl; try apply log_ext_raise.
  apply log_ext_bind; [apply log_ext_call_on, log_ext_getattr | intros f].
  destruct f; try apply log_ext_raise.
  apply log_ext_bind; [apply log_ext_call_on, log_ext_hook | intros r3].
  apply log_ext_bind; [apply log_ext_call_on, log_ext_getitem | intros _].
  apply log_ext_raise.
Qed.

Lemma log_ext_on_res r :
  log_ext (bind (call_on r (getitem get_hook (VInt 0)))
                (fun _ => @raise resource KeyError)).
Proof.
  apply log_ext_bind; [apply log_ext_call_on, log_ext_getitem | intros _].
  apply log_ext_raise.
Qed.

Lemma log_ext_Resource_init u sch nm :
  log_ext (Resource_init humanize singularize get_hook u sch nm).
Proof.
  apply (good_Resource_init humanize singularize get_hook (@log_ext)).
  - intros A a. apply log_ext_ret.
  - intros A e. apply log_ext_raise.
  - intros A B m f. apply log_ext_bind.
  - apply log_ext_parse_dict_on_list.
  - apply log_ext_on_res.
Qed.

Lemma log_ext_parse_schema_dict data :
  log_ext (parse_schema_dict humanize singularize get_hook data).
Proof.
  apply (good_parse_schema_dict humanize singularize get_hook (@log_ext)).
  - intros A a. apply log_ext_ret.
  - intros A e. apply log_ext_raise.
  - intros A B m f. apply log_ext_bind.
  - apply log_ext_parse_dict_on_list.
  - apply log_ext_on_res.
Qed.

Lemma log_ext_parse_schema_list data nm :
  log_ext (parse_schema_list humanize singularize get_hook data nm).
Proof.
  apply (good_parse_schema_list humanize singularize get_hook (@log_ext)).
  - intros A a. apply log_ext_ret.
  - intros A e. apply log_ext_raise.
  - intros A B m f. apply log_ext_bind.
  - apply log_ext_parse_dict_on_list.
  - apply log_ext_on_res.
Qed.

Lemma log_ext_decode_response resp :
  log_ext (decode_response humanize singularize get_hook resp).
Proof.
  unfold decode_response.
  apply log_ext_bind; [apply log_ext_handle_status | intros _].
  apply log_ext_bind.
  - destruct (text resp =? "")%string; [apply log_ext_ret |].
    destruct (json resp); [apply log_ext_ret | apply log_ext_raise].
  - intros data. destruct data; try apply log_ext_raise.
    + apply log_ext_bind; [apply log_ext_get_self | intros r].
      apply log_ext_bind;
        [apply log_ext_parse_schema_list | intros l'; apply log_ext_ret].
    + apply log_ext_bind;
        [apply log_ext_parse_schema_dict | intros d'; apply log_ext_ret].
Qed.

Lemma log_ext_py_humanize nm : log_ext (py_humanize humanize nm).
Proof. destruct nm; [apply log_ext_ret | apply log_ext_raise]. Qed.

End Logs.

(** ** One verb call *)

Section Fetch.

Variables humanize singularize : string -> string.
Variable uri_variables : string -> list string.
Variable uri_expand : string -> dict -> string.
Variable send : nat -> request -> option response.
Variable get_hook : M resource.

Let fetch := fetch_resource humanize singularize uri_variables uri_expand
                            send get_hook.
Let decode := decode_response humanize singularize get_hook.
Let init := Resource_init humanize singularize get_hook.
Let req_of := request_of uri_variables uri_expand.
Let wrap := wrap_response humanize singularize get_hook.

Lemma fetch_resource_unfold method params args kwargs st t :
  url (self st) = Some (VStr t) ->
  fetch method params args kwargs st =
  bind (session_send send (req_of method t params args kwargs))
       (wrap (req_url (req_of method t params args kwargs))) st.
Proof.
  intros Hu. unfold fetch, fetch_resource, variables, self_url.
  unfold bind, get_self, fetch_schema, wrap, wrap_response, req_of, request_of.
  rewrite Hu. unfold ret. simpl. rewrite Hu. simpl. unfold bind.
  destruct (session_send send _ st) as [[e | resp] st1]; [reflexivity |].
  unfold decode, init, get_self.
  destruct (decode_response humanize singularize get_hook resp st1)
    as [[e | sch] st2]; reflexivity.
Qed.

Lemma session_send_state req st :
  snd (session_send send req st) = mkState (self st) (req :: log st).
Proof.
  unfold session_send. destruct (send (List.length (log st)) req); reflexivity.
Qed.

Lemma silent_get_self : silent get_self.
Proof. intros st a st' H. inversion H. reflexivity. Qed.

Lemma silent_decode resp : silent (decode resp).
Proof.
  unfold decode, decode_response.
  apply silent_bind.
  { unfold handle_status.
    destruct ((200 <=? status_code resp) && (status_code resp <? 300));
      [apply silent_ret | apply silent_raise]. }
  intros _. apply silent_bind.
  - destruct (text resp =? "")%string; [apply silent_ret |].
    destruct (json resp); [apply silent_ret | apply silent_raise].
  - intros data. destruct data; try apply silent_raise.
    + apply silent_bind; [apply silent_get_self | intros r].
      apply silent_bind;
        [apply silent_parse_schema_list | intros l'; apply silent_ret].
    + apply silent_bind;
        [apply silent_parse_schema_dict | intros d'; apply silent_ret].
Qed.

Lemma silent_wrap url' resp : silent (wrap url' resp).
Proof.
  unfold wrap, wrap_response.
  apply silent_bind; [apply silent_decode | intros sch].
  apply silent_bind; [apply silent_get_self | intros r].
  apply silent_bind.
  - destruct (name r); [apply silent_ret | apply silent_raise].
  - intros nm. apply silent_Resource_init.
Qed.

Lemma keeps_self_wrap url' resp :
  keeps_self (wrap url' resp).
Proof.
  unfold wrap, wrap_response.
  apply keeps_self_bind; [apply keeps_self_decode_response | intros sch].
  apply keeps_self_bind; [apply keeps_self_get_self | intros r].
  apply keeps_self_bind.
  - destruct (name r); [apply keeps_self_ret | apply keeps_self_raise].
  - intros nm. apply keeps_self_Resource_init.
Qed.

Lemma log_ext_wrap url' resp :
  log_ext get_hook -> log_ext (wrap url' resp).
Proof.
  intros Hh. unfold wrap, wrap_response.
  apply log_ext_bind; [apply log_ext_decode_response, Hh | intros sch].
  apply log_ext_bind; [apply log_ext_get_self | intros r].
  apply log_ext_bind; [apply log_ext_py_humanize | intros nm].
  apply log_ext_Resource_init, Hh.
Qed.

(** A verb call on a node that has a [url] leaves the node as it was. *)
Lemma fetch_keeps_self method params args kwargs st u :
  url (self st) = Some u ->
  self (snd (fetch method params args kwargs st)) = self st.
Proof.
  intros Hu. destruct u as [| | | t | | |];
    try (unfold fetch, fetch_resource, variables, self_url, bind, get_self;
         rewrite Hu; reflexivity).
  rewrite (fetch_resource_unfold _ _ _ _ _ _ Hu).
  apply keeps_self_bind.
  - intros st0. rewrite session_send_state. reflexivity.
  - intros resp. apply keeps_self_wrap.
Qed.

(** A verb call that returns has sent exactly its one request. *)
Lemma fetch_returns method params args kwargs st t r' st' :
  url (self st) = Some (VStr t) ->
  fetch method params args kwargs st = (inr r', st') ->
  st' = mkState (self st)
                (req_of method t params args kwargs :: log st).
Proof.
  intros Hu H. rewrite (fetch_resource_unfold _ _ _ _ _ _ Hu) in H.
  apply bind_inr in H as (resp & st1 & H1 & H2).
  apply silent_wrap in H2. subst st'.
  rewrite <- session_send_state, H1. reflexivity.
Qed.

(** Whatever a verb call does, its request is sent first. *)
Lemma fetch_sends method params args kwargs st t :
  log_ext get_hook ->
  url (self st) = Some (VStr t) ->
  exists ext,
    log (snd (fetch method params args kwargs st)) =
    ext ++ req_of method t params args kwargs :: log st.
Proof.
  intros Hh Hu. rewrite (fetch_resource_unfold _ _ _ _ _ _ Hu).
  unfold bind.
  pose proof (session_send_state
                (req_of method t params args kwargs) st) as Hs.
  destruct (session_send send _ st) as [[e | resp] st1]; simpl in Hs;
    subst st1.
  - exists []. reflexivity.
  - destruct (log_ext_wrap
                (req_url (req_of method t params args kwargs)) resp Hh
                (mkState (self st)
                   (req_of method t params args kwargs :: log st)))
      as [ext He].
    exists ext. exact He.
Qed.

Lemma log_ext_session_send req : log_ext (session_send send req).
Proof.
  intros st. rewrite session_send_state. exists [req]. reflexivity.
Qed.

Lemma log_ext_fetch method params args kwargs :
  log_ext get_hook -> log_ext (fetch method params args kwargs).
Proof.
  intros Hh. unfold fetch, fetch_resource.
  assert (Hurl : log_ext (self_url get_hook)).
  { unfold self_url. apply log_ext_bind; [apply log_ext_get_self | intros r].
    destruct (url r); [apply log_ext_ret | apply log_ext_getattr, Hh]. }
  apply log_ext_bind.
  { unfold variables. apply log_ext_bind; [exact Hurl | intros u].
    destruct u; try apply log_ext_raise. apply log_ext_ret. }
  intros vars. apply log_ext_bind; [exact Hurl | intros u].
  destruct u; try apply log_ext_raise.
  apply log_ext_bind.
  { unfold fetch_schema. apply log_ext_bind;
      [apply log_ext_session_send
      | intros resp; apply log_ext_decode_response, Hh]. }
  intros sch. apply log_ext_bind; [apply log_ext_get_self | intros r].
  apply log_ext_bind; [apply log_ext_py_humanize | intros nm].
  apply log_ext_Resource_init, Hh.
Qed.

End Fetch.

Section Fuel.

Variables humanize singularize : string -> string.
Variable uri_variables : string -> list string.
Variable uri_expand : string -> dict -> string.
Variable send : nat -> request -> option response.

Let hook := get_fuel humanize singularize uri_variables uri_expand send.

Lemma log_ext_get_fuel fuel : log_ext (hook fuel).
Proof.
  induction fuel as [| n IH]; simpl.
  - apply log_ext_raise.
  - apply log_ext_fetch. exact IH.
Qed.

End Fuel.

(** ** Fields of a parsed object *)

Lemma dict_get_set_same k v d : dict_get k (dict_set k v d) = Some v.
Proof.
  induction d as [| [k' v'] d IH]; simpl.
  - rewrite String.eqb_refl. reflexivity.
  - destruct (k' =? k)%string eqn:E; simpl; rewrite E; [reflexivity | exact IH].
Qed.

Lemma dict_get_set_other k k' v d :
  k' <> k -> dict_get k (dict_set k' v d) = dict_get k d.
Proof.
  intros Hne. induction d as [| [k0 v0] d IH]; simpl.
  - apply String.eqb_neq in Hne. rewrite Hne. reflexivity.
  - destruct (k0 =? k')%string eqn:E; simpl.
    + apply String.eqb_eq in E. subst k0.
      apply String.eqb_neq in Hne. rewrite Hne. reflexivity.
    + destruct (k0 =? k)%string; [reflexivity | exact IH].
Qed.

Lemma dict_set_nonempty k v d : dict_set k v d <> [].
Proof.
  destruct d as [| [k' v'] d]; simpl; [discriminate |].
  destruct (k' =? k)%string; discriminate.
Qed.

Section Fields.

Variables humanize singularize : string -> string.
Variable get_hook : M resource.

Let init := Resource_init humanize singularize get_hook None.
Let field := parse_field humanize singularize init.
Let loop := parse_dict_with humanize singularize init.

Lemma loop_keeps_untouched post :
  forall acc st d' st' k,
    loop post acc st = (inr d', st') ->
    not_overwritten k post ->
    dict_get k d' = dict_get k acc.
Proof.
  induction post as [| [key v] post IH]; intros acc st d' st' k H Hno.
  - simpl in H. inversion H. reflexivity.
  - simpl in H. apply bind_inr in H as (x & st1 & _ & H2).
    inversion Hno as [| kv l Hk Hrest]; subst.
    rewrite (IH _ _ _ _ _ H2 Hrest).
    apply dict_get_set_other. exact Hk.
Qed.

Lemma loop_field pre :
  forall acc key v post st d' st',
    loop (pre ++ (key, v) :: post) acc st = (inr d', st') ->
    not_overwritten (stored_name key) post ->
    exists x,
      field key v st = (inr x, st) /\
      dict_get (stored_name key) d' = Some x.
Proof.
  induction pre as [| [k0 v0] pre IH]; intros acc key v post st d' st' H Hno.
  - simpl in H. apply bind_inr in H as (x & st1 & H1 & H2).
    pose proof (silent_parse_field humanize singularize get_hook
                  key v _ _ _ H1) as Hs.
    subst st1. exists x. split; [exact H1 |].
    rewrite (loop_keeps_untouched _ _ _ _ _ _ H2 Hno).
    apply dict_get_set_same.
  - simpl in H. apply bind_inr in H as (x & st1 & H1 & H2).
    pose proof (silent_parse_field humanize singularize get_hook
                  k0 v0 _ _ _ H1) as Hs.
    subst st1. exact (IH _ _ _ _ _ _ _ H2 Hno).
Qed.

Lemma loop_nonempty items :
  forall acc st d' st',
    loop items acc st = (inr d', st') ->
    items <> [] \/ acc <> [] ->
    d' <> [].
Proof.
  induction items as [| [key v] items IH]; intros acc st d' st' H Hne.
  - simpl in H. inversion H. subst. destruct Hne as [Hne | Hne];
      [congruence | exact Hne].
  - simpl in H. apply bind_inr in H as (x & st1 & _ & H2).
    apply (IH _ _ _ _ H2). right. apply dict_set_nonempty.
Qed.

End Fields.

(** ** Suffixes *)

Lemma prefix_refl s : String.prefix s s = true.
Proof.
  induction s as [| c s IH]; simpl; [reflexivity |].
  destruct (ascii_dec c c) as [_ | Hn]; [exact IH | congruence].
Qed.

Lemma endswith_app suf p : endswith suf (p ++ suf)%string = true.
Proof.
  induction p as [| c p IH]; cbn [append endswith].
  - destruct suf; cbn [endswith]; rewrite String.eqb_refl; reflexivity.
  - destruct (String c (p ++ suf) =? suf)%string; [reflexivity | exact IH].
Qed.

(** A key that [split('_url')[0]] leaves whole does not end in [_url]. *)
Lemma whole_not_link key :
  split_head "_url" key = key -> endswith "_url" key = false.
Proof.
  induction key as [| c key IH]; intros H; [reflexivity |].
  cbn [endswith]. cbn [split_head] in H.
  destruct (String.prefix "_url" (String c key)) eqn:Ep; [discriminate |].
  destruct (String c key =? "_url")%string eqn:E.
  - apply String.eqb_eq in E. rewrite E in Ep. discriminate Ep.
  - apply IH. congruence.
Qed.

(** ** Reading a loaded node *)

Lemma is_loaded_schema r :
  is_loaded r = true -> exists kv d, schema r = Some (kv :: d).
Proof.
  unfold is_loaded. destruct (schema r) as [[| kv d] |]; try discriminate.
  intros _. exists kv, d. reflexivity.
Qed.

Lemma ensure_loaded_noop hook st :
  is_loaded (self st) = true -> ensure_schema_loaded hook st = (inr tt, st).
Proof.
  intros H. apply is_loaded_schema in H as (kv & d & Hs).
  unfold ensure_schema_loaded, self_schema, bind, get_self. rewrite Hs.
  reflexivity.
Qed.

Lemma getattr_loaded hook nm st d :
  schema (self st) = Some d -> d <> [] ->
  getattr hook nm st = (lookup_result nm d, st).
Proof.
  intros Hs Hd. unfold getattr, bind.
  rewrite ensure_loaded_noop
    by (unfold is_loaded; rewrite Hs; destruct d; congruence).
  unfold self_schema, bind, get_self. rewrite Hs. unfold ret, lookup_result.
  destruct (dict_get nm d); reflexivity.
Qed.

Lemma keys_loaded hook st d :
  schema (self st) = Some d -> d <> [] ->
  keys hook st = (inr (dict_keys d), st).
Proof.
  intros Hs Hd. unfold keys, bind.
  rewrite ensure_loaded_noop
    by (unfold is_loaded; rewrite Hs; destruct d; congruence).
  unfold self_schema, bind, get_self. rewrite Hs. reflexivity.
Qed.

(** * The claims *)

Section Claims.

Variables humanize singularize : string -> string.
Variable uri_variables : string -> list string.
Variable uri_expand : string -> dict -> string.
Variable send : nat -> request -> option response.

Let hook := get_fuel humanize singularize uri_variables uri_expand send.
Let n_getattr :=
  node_getattr humanize singularize uri_variables uri_expand send.
Let n_keys := node_keys humanize singularize uri_variables uri_expand send.
Let n_verb := node_verb humanize singularize uri_variables uri_expand send.

(** C3 (as amended).  Let [key = nm ++ "_url"] be a field of a parsed
    object in which [_url] occurs only as that suffix, and let no later field
    of the object be stored under [nm].  If the value of the field is true,
    [nm] maps to an unloaded child node whose [url] is that value and whose
    label is [humanize nm]; otherwise [nm] maps to the value itself.  Reading
    [nm] on a node that holds the parsed schema returns just that, and sends
    nothing. *)
Theorem C3_link_field_lookup
  (get_hook : M resource) pre nm v post st d' st' :
  parse_schema_dict humanize singularize get_hook
    (pre ++ ((nm ++ "_url")%string, v) :: post) st = (inr d', st') ->
  stored_name (nm ++ "_url")%string = nm ->
  not_overwritten nm post ->
  let child :=
    if truthy v
    then VRes (mkResource (Some v) (Some []) (Some (humanize nm)))
    else v in
  dict_get nm d' = Some child /\
  forall fuel r lg,
    schema r = Some d' ->
    n_getattr fuel nm (mkState r lg) = (inr child, mkState r lg).
Proof.
  intros H Hnm Hno child.
  assert (Hget : dict_get nm d' = Some child).
  { rewrite <- Hnm in Hno.
    destruct (loop_field _ _ _ _ _ _ _ _ _ _ _ H Hno) as (x & Hx & Hd).
    rewrite Hnm in Hd. rewrite Hd. f_equal.
    unfold parse_field in Hx. rewrite endswith_app in Hx.
    fold (stored_name (nm ++ "_url")%string) in Hx. rewrite Hnm in Hx.
    unfold child. destruct (truthy v); inversion Hx; reflexivity. }
  split; [exact Hget |].
  intros fuel r lg Hs. unfold n_getattr, node_getattr.
  rewrite (getattr_loaded _ nm (mkState r lg) d' Hs).
  - unfold lookup_result. rewrite Hget. reflexivity.
  - intros ->. discriminate Hget.
Qed.


(** C10 (the code at the failing input).  The field [a_url_b] does not end
    in [_url], yet [parse_schema_dict] stores its value under [a]: on the
    node built from the object, [a_url_b] is not found and [a] gives the
    value. *)
Theorem C10_interior_url_key_is_truncated (get_hook : M resource) st nm :
  let node := mkResource None (Some [("a", VInt 1)]) nm in
  parse_schema_dict humanize singularize get_hook [("a_url_b", VInt 1)] st
    = (inr [("a", VInt 1)], st) /\
  Resource_init humanize singularize get_hook None
    (VDict [("a_url_b", VInt 1)]) nm st = (inr node, st) /\
  (forall fuel lg,
     n_getattr fuel "a_url_b" (mkState node lg)
       = (inl (HTTPError 404), mkState node lg)) /\
  (forall fuel lg,
     n_getattr fuel "a" (mkState node lg) = (inr (VInt 1), mkState node lg)).
Proof.
  intros node. repeat split; intros; reflexivity.
Qed.

(** The lazy load of a node whose schema is [{}]. *)
Lemma ensure_unloaded (h : M resource) st :
  schema (self st) = Some [] ->
  ensure_schema_loaded h st =
  match h st with
  | (inl e, st1) => (inl e, st1)
  | (inr r', st1) =>
      match schema r' with
      | Some d' => (inr tt, mkState (set_schema (self st1) d') (log st1))
      | None => (inl RecursionError, mkState (self st1) (log st1))
      end
  end.
Proof.
  intros Hs. unfold ensure_schema_loaded, self_schema, bind, get_self.
  rewrite Hs. simpl.
  destruct (h st) as [[e | r'] st1]; [reflexivity |].
  unfold call_on, bind. simpl. destruct (schema r'); reflexivity.
Qed.





(** C2 (as amended).  On a node whose [url] is the template [t], a verb
    call binds a single positional argument to the single variable of the
    template; with any other number of positional arguments or of variables
    the positional arguments are ignored and the bindings are the keyword
    arguments alone.  No error is raised for the count: in every case the
    request for the template expanded with these bindings is sent. *)
Theorem C2_positional_argument_binding
  fuel method params args kwargs r lg t :
  url r = Some (VStr t) ->
  (forall a v, args = [a] -> uri_variables t = [v] ->
     bound_kwargs args (uri_variables t) kwargs = dict_set v a kwargs) /\
  (List.length args <> 1%nat \/ List.length (uri_variables t) <> 1%nat ->
     bound_kwargs args (uri_variables t) kwargs = kwargs) /\
  exists ext,
    log (snd (n_verb fuel method params args kwargs (mkState r lg))) =
    ext ++ mkRequest method
             (uri_expand t (bound_kwargs args (uri_variables t) kwargs))
             params :: lg.
Proof.
  intros Hu. split; [| split].
  - intros a v -> ->. reflexivity.
  - intros Hn. unfold bound_kwargs.
    destruct args as [| a [| a' args']]; try reflexivity.
    destruct (uri_variables t) as [| v [| v' vars']]; try reflexivity.
    simpl in Hn. destruct Hn as [Hn | Hn]; congruence.
  - exact (fetch_sends humanize singularize uri_variables uri_expand send
             (hook fuel) method params args kwargs (mkState r lg) t
             (log_ext_get_fuel humanize singularize uri_variables uri_expand
                send fuel) Hu).
Qed.

(** The items [parse_schema_list] returns are [Resource] objects. *)
Lemma parse_list_head (get_hook : M resource) x l nm st l' st' :
  parse_schema_list humanize singularize get_hook (x :: l) nm st
    = (inr l', st') ->
  exists r0 rest, l' = VRes r0 :: rest.
Proof.
  unfold parse_schema_list. simpl. intros H.
  apply bind_inr in H as (s & st1 & _ & H).
  apply bind_inr in H as (r0 & st2 & _ & H).
  apply bind_inr in H as (rest & st3 & _ & H).
  inversion H. exists r0, rest. reflexivity.
Qed.

(** C7 (the code on a top-level array).  When the body of the response
    decodes to a non-empty array, the verb call does not return a node:
    [fetch_schema] parses the array into a list of nodes, and the constructor
    then hands that list to [parse_schema_dict], which raises. *)
Theorem C7_top_level_array_never_returns
  fuel method params args kwargs r lg t resp x l :
  url r = Some (VStr t) ->
  send (List.length lg)
       (request_of uri_variables uri_expand method t params args kwargs)
    = Some resp ->
  text resp <> ""%string ->
  json resp = Some (VList (x :: l)) ->
  forall r' st',
    n_verb fuel method params args kwargs (mkState r lg) <> (inr r', st').
Proof.
  intros Hu Hsend Htext Hjson r' st' H.
  unfold n_verb, node_verb in H. fold hook in H.
  rewrite (fetch_resource_unfold humanize singularize uri_variables
             uri_expand send (hook fuel) method params args kwargs
             (mkState r lg) t Hu) in H.
  apply bind_inr in H as (resp' & st1 & H1 & H2).
  unfold session_send in H1. simpl in H1. rewrite Hsend in H1.
  inversion H1. subst resp' st1. clear H1.
  unfold wrap_response in H2.
  apply bind_inr in H2 as (sch & st2 & Hd & H2).
  unfold decode_response in Hd.
  apply bind_inr in Hd as (u0 & st3 & _ & Hd).
  apply String.eqb_neq in Htext. rewrite Htext, Hjson in Hd.
  apply bind_inr in Hd as (data & st4 & Hdata & Hd).
  inversion Hdata. subst data st4. clear Hdata.
  apply bind_inr in Hd as (r0 & st5 & _ & Hd).
  apply bind_inr in Hd as (l' & st6 & Hl & Hd).
  apply parse_list_head in Hl as (c & rest & ->).
  inversion Hd. subst sch st6. clear Hd.
  apply bind_inr in H2 as (r1 & st7 & _ & H2).
  apply bind_inr in H2 as (nm & st8 & _ & H2).
  simpl in H2. destruct (list_has_url rest); [discriminate H2 |].
  apply bind_inr in H2 as (d' & st9 & H2 & _).
  exact (fails_parse_dict_on_list (hook fuel) (VRes c) rest _ _ _ H2).
Qed.

Lemma keys_log_unloaded (h : M resource) st :
  schema (self st) = Some [] ->
  log (snd (keys h st)) = log (snd (h st)).
Proof.
  intros Hs. unfold keys. unfold bind at 1.
  rewrite ensure_unloaded by exact Hs.
  destruct (h st) as [[e | r'] st1]; [reflexivity |].
  destruct (schema r'); reflexivity.
Qed.




End Claims.

(** C4 (the code on [post]).  [post] is declared without [self], so its
    body cannot reach the node: every call raises [NameError] and sends
    nothing, where the six other verbs send their request. *)
Theorem C4_post_raises_before_any_request fuel params args kwargs st :
  node_post fuel params args kwargs st = (inl NameError, st).
Proof. reflexivity. Qed.

(** * Concrete runs *)


(** C3 at [{"items_url": "https://x/items", "name": "a"}]. *)
Lemma C3_link_field_lookup_witness :
  dict_get "items"
    [("items", VRes (mkResource (Some (VStr "https://x/items")) (Some [])
                                (Some "Items")));
     ("name", VStr "a")]
  = Some (VRes (mkResource (Some (VStr "https://x/items")) (Some [])
                           (Some "Items"))).
Proof.
  apply (C3_link_field_lookup capitalize drop_s tpl_variables tpl_expand
           (always None "") (raise RecursionError)
           [] "items" (VStr "https://x/items") [("name", VStr "a")]
           (mkState root []) _ (mkState root [])).
  - reflexivity.
  - reflexivity.
  - repeat constructor. discriminate.
Defined.

(** C3 as stated fails.  The label of a link child is the humanized name:
    for [{"items_url": "https://x/items"}] it is [Items], not [items].
    And a later field stored under the same name wins: in
    [{"a_url": "https://x/a", "a": 1}] the key [a] gives [1], not a node. *)
Lemma C3_counterexample :
  (parse_schema_dict capitalize drop_s (raise RecursionError)
     [("items_url", VStr "https://x/items")] (mkState root [])
   = (inr [("items",
            VRes (mkResource (Some (VStr "https://x/items")) (Some [])
                             (Some "Items")))], mkState root []) /\
   Some "Items"%string <> Some "items"%string) /\
  (parse_schema_dict capitalize drop_s (raise RecursionError)
     [("a_url", VStr "https://x/a"); ("a", VInt 1)] (mkState root [])
   = (inr [("a", VInt 1)], mkState root []) /\
   dict_get "a" [("a", VInt 1)] = Some (VInt 1)).
Proof.
  split; (split; [reflexivity |]); [discriminate | reflexivity].
Qed.




(** C2 at a template with the single variable [owner] and the positional
    argument ["a"]. *)
Lemma C2_positional_argument_binding_witness :
  let t := "https://x/users/{owner}"%string in
  url owner_node = Some (VStr t) /\
  bound_kwargs [VStr "a"] (tpl_variables t) [] = [("owner", VStr "a")] /\
  exists ext,
    log (snd (T_verb (always None "") 1 "GET" [] [VStr "a"] []
                (mkState owner_node []))) =
    ext ++ [mkRequest "GET" "https://x/users/a" []].
Proof.
  intros t. split; [reflexivity |].
  destruct (C2_positional_argument_binding capitalize drop_s tpl_variables
              tpl_expand (always None "") 1%nat "GET" [] [VStr "a"] []
              owner_node [] t eq_refl) as (Hone & _ & Hsent).
  split.
  - apply (Hone (VStr "a") "owner"%string); reflexivity.
  - exact Hsent.
Defined.

(** C2 as stated fails: on the template [https://x/repos/{owner}/{repo}],
    which declares two variables, a verb call with one positional argument
    raises nothing; the argument is dropped, the request is sent and a node
    comes back. *)
Lemma C2_counterexample :
  tpl_variables "https://x/repos/{owner}/{repo}" = ["owner"; "repo"]%string /\
  T_verb (always None "") 1 "GET" [] [VStr "a"] [] (mkState repo_node [])
  = (inr (mkResource (Some (VStr "https://x/repos//")) (Some [])
                     (Some "Root")),
     mkState repo_node [mkRequest "GET" "https://x/repos//" []]).
Proof. split; reflexivity. Qed.




(** C6 (the code on the empty object).  For [{"e": {}}] the constructor
    of the child sets neither [url] nor [schema], the nested object being
    false: the child is not loaded, and [keys()] and attribute access on it
    raise [RecursionError] instead of answering from the data in hand. *)
Theorem C6_empty_object_child_is_unusable :
  let child := mkResource None None (Some "E") in
  (forall st,
     parse_schema_dict capitalize drop_s (raise RecursionError)
       [("e", VDict [])] st = (inr [("e", VRes child)], st)) /\
  is_loaded child = false /\
  (forall fuel lg,
     T_keys (always None "") fuel (mkState child lg)
       = (inl RecursionError, mkState child lg)) /\
  (forall fuel lg nm,
     T_getattr (always None "") fuel nm (mkState child lg)
       = (inl RecursionError, mkState child lg)).
Proof. intros child. repeat split; intros; reflexivity. Qed.

(** C7 at the root node when the server answers [[{"id": 1}]]. *)
Lemma C7_top_level_array_never_returns_witness :
  let send := always (Some (VList [VDict [("id", VInt 1)]])) "[...]" in
  T_verb send 1 "GET" [] [] [] (mkState root [])
    = (inl (HTTPError 404), mkState root [get_root]) /\
  forall r' st',
    T_verb send 1 "GET" [] [] [] (mkState root []) <> (inr r', st').
Proof.
  intros send. split; [reflexivity |].
  apply (C7_top_level_array_never_returns capitalize drop_s tpl_variables
           tpl_expand send 1%nat "GET" [] [] [] root [] "https://x/"
           (mkResponse 200 "[...]" (Some (VList [VDict [("id", VInt 1)]])))
           (VDict [("id", VInt 1)]) []).
  - reflexivity.
  - reflexivity.
  - discriminate.
  - reflexivity.
Defined.

(** * Further properties of the class *)

Section Operations.

Variables humanize singularize : string -> string.
Variable uri_variables : string -> list string.
Variable uri_expand : string -> dict -> string.
Variable send : nat -> request -> option response.

Let hook := get_fuel humanize singularize uri_variables uri_expand send.
Let n_getattr :=
  node_getattr humanize singularize uri_variables uri_expand send.
Let n_keys := node_keys humanize singularize uri_variables uri_expand send.
Let n_repr := node_repr humanize singularize uri_variables uri_expand send.
Let n_verb := node_verb humanize singularize uri_variables uri_expand send.
Let n_parse_dict :=
  node_parse_schema_dict humanize singularize uri_variables uri_expand send.
Let n_parse_list :=
  node_parse_schema_list humanize singularize uri_variables uri_expand send.
Let n_new := node_new humanize singularize uri_variables uri_expand send.


Lemma loaded_nonempty r d :
  is_loaded r = true -> schema r = Some d -> d <> [].
Proof.
  unfold is_loaded. intros Hl Hs. rewrite Hs in Hl. destruct d; congruence.
Qed.



Lemma repr_as_keys (h : M resource) st :
  repr h st =
  match keys h st with
  | (inr ks, st') => (inr (repr_text (name (self st')) ks), st')
  | (inl e, st') => (inl e, st')
  end.
Proof.
  unfold repr, keys, bind.
  destruct (ensure_schema_loaded h st) as [[e | u] st1]; [reflexivity |].
  unfold self_schema, bind, get_self.
  destruct (schema (self st1)); reflexivity.
Qed.

(** X3.  [repr] of a node loads it exactly as [keys()] does.  On a loaded
    node it sends nothing and prints the label and the keys of the schema;
    on an unloaded node it first sends the GET request for the node's
    [url]. *)
Theorem repr_loads_the_node_like_keys fuel r lg :
  (forall d,
     is_loaded r = true -> schema r = Some d ->
     n_repr fuel (mkState r lg)
       = (inr (repr_text (name r) (dict_keys d)), mkState r lg)) /\
  (forall t,
     schema r = Some [] -> url r = Some (VStr t) ->
     snd (n_repr (S fuel) (mkState r lg))
       = snd (n_keys (S fuel) (mkState r lg)) /\
     exists ext,
       log (snd (n_repr (S fuel) (mkState r lg))) =
       ext ++ request_of uri_variables uri_expand "GET" t [] [] [] :: lg).
Proof.
  split.
  - intros d Hl Hs. unfold n_repr, node_repr. rewrite repr_as_keys.
    rewrite (keys_loaded _ (mkState r lg) d Hs (loaded_nonempty r d Hl Hs)).
    reflexivity.
  - intros t Hs Hu.
    assert (Hsnd : snd (n_repr (S fuel) (mkState r lg))
                   = snd (n_keys (S fuel) (mkState r lg))).
    { unfold n_repr, node_repr, n_keys, node_keys. rewrite repr_as_keys.
      destruct (keys _ (mkState r lg)) as [[e | ks] st']; reflexivity. }
    split; [exact Hsnd |]. rewrite Hsnd.
    unfold n_keys, node_keys.
    rewrite (keys_log_unloaded _ (mkState r lg) Hs).
    exact (fetch_sends humanize singularize uri_variables uri_expand send
             (hook fuel) "GET" [] [] [] (mkState r lg) t
             (log_ext_get_fuel humanize singularize uri_variables uri_expand
                send fuel) Hu).
Qed.

(** X4.  Parsing is free of effects on the caller: [parse_schema_dict],
    [parse_schema_list] and the constructor never change the receiver, and
    whenever one of them returns, no request has been sent. *)
Theorem parsing_sends_nothing fuel st :
  (forall data,
     self (snd (n_parse_dict fuel data st)) = self st /\
     forall d' st', n_parse_dict fuel data st = (inr d', st') -> st' = st) /\
  (forall data nm,
     self (snd (n_parse_list fuel data nm st)) = self st /\
     forall l' st', n_parse_list fuel data nm st = (inr l', st') -> st' = st) /\
  (forall u sch nm,
     self (snd (n_new fuel u sch nm st)) = self st /\
     forall r st', n_new fuel u sch nm st = (inr r, st') -> st' = st).
Proof.
  split; [| split].
  - intros data. split.
    + apply keeps_self_parse_schema_dict.
    + intros d' st'. apply silent_parse_schema_dict.
  - intros data nm. split.
    + apply keeps_self_parse_schema_list.
    + intros l' st'. apply silent_parse_schema_list.
  - intros u sch nm. split.
    + apply keeps_self_Resource_init.
    + intros r st'. apply silent_Resource_init.
Qed.


(** X6.  A verb call on a node that has a [url] never changes that node,
    whether the call returns or raises: [url], [schema] and label of the
    receiver are afterwards what they were. *)
Theorem verb_call_keeps_the_receiver fuel method params args kwargs r lg u :
  url r = Some u ->
  self (snd (n_verb fuel method params args kwargs (mkState r lg))) = r.
Proof.
  intros Hu.
  exact (fetch_keeps_self humanize singularize uri_variables uri_expand send
           (hook fuel) method params args kwargs (mkState r lg) u Hu).
Qed.

Lemma Resource_init_name (h : M resource) u sch nm st r st' :
  Resource_init humanize singularize h u sch nm st = (inr r, st') ->
  name r = nm.
Proof.
  intros H.
  assert (H0 : forall r0,
             r0 = match u with
                  | Some uv =>
                      if truthy uv then mkResource (Some uv) (Some []) nm
                      else mkResource None None nm
                  | None => mkResource None None nm
                  end -> name r0 = nm).
  { intros r0 ->. destruct u as [uv |]; [destruct (truthy uv) |]; reflexivity. }
  destruct sch; simpl in H.
  - inversion H. apply H0. reflexivity.
  - destruct b; [discriminate H | inversion H; apply H0; reflexivity].
  - destruct (negb (z =? 0)); [discriminate H | inversion H; apply H0; reflexivity].
  - destruct (negb (s =? "")%string);
      [discriminate H | inversion H; apply H0; reflexivity].
  - destruct l as [| x l]; [inversion H; apply H0; reflexivity |].
    destruct (list_has_url (x :: l)); [discriminate H |].
    apply bind_inr in H as (d' & st1 & _ & H). inversion H. simpl.
    apply H0. reflexivity.
  - destruct d as [| kv d]; [inversion H; apply H0; reflexivity |].
    apply bind_inr in H as (d' & st1 & _ & H). inversion H.
    unfold set_schema. cbn [name].
    match goal with
    | |- name (match ?x with Some _ => _ | None => _ end) = _ => destruct x
    end; [reflexivity | apply H0; reflexivity].
  - apply bind_inr in H as (x & st1 & _ & H). discriminate H.
Qed.

(** X7.  A verb call that returns has sent exactly one request, the one
    with its method, the expanded template and its request parameters, and
    nothing else has changed; the node it returns is labelled with the
    humanized label of the receiver. *)
Theorem verb_call_returns_after_one_request
  fuel method params args kwargs r lg t r' st' :
  url r = Some (VStr t) ->
  n_verb fuel method params args kwargs (mkState r lg) = (inr r', st') ->
  st' = mkState r
          (mkRequest method
             (uri_expand t (bound_kwargs args (uri_variables t) kwargs))
             params :: lg) /\
  exists nm, name r = Some nm /\ name r' = Some (humanize nm).
Proof.
  intros Hu H. split.
  - exact (fetch_returns humanize singularize uri_variables uri_expand send
             (hook fuel) method params args kwargs (mkState r lg) t r' st'
             Hu H).
  - unfold n_verb, node_verb in H. fold hook in H.
    rewrite (fetch_resource_unfold humanize singularize uri_variables
               uri_expand send (hook fuel) method params args kwargs
               (mkState r lg) t Hu) in H.
    apply bind_inr in H as (resp & st1 & H1 & H2).
    unfold wrap_response in H2.
    apply bind_inr in H2 as (sch & st2 & Hd & H2).
    apply bind_inr in H2 as (r0 & st3 & Hr0 & H2).
    apply bind_inr in H2 as (nm & st4 & Hnm & H2).
    apply Resource_init_name in H2.
    pose proof (keeps_self_decode_response humanize singularize (hook fuel)
                  resp st1) as Hk. rewrite Hd in Hk. simpl in Hk.
    pose proof (session_send_state send
                  (request_of uri_variables uri_expand method t params args
                     kwargs) (mkState r lg)) as Hs.
    rewrite H1 in Hs. simpl in Hs. subst st1. simpl in Hk.
    inversion Hr0. subst r0 st3. rewrite Hk in Hnm.
    destruct (name r) as [nm0 |]; [| discriminate Hnm].
    inversion Hnm. subst nm. exists nm0. split; [reflexivity | exact H2].
Qed.




Lemma parse_list_with_items (h : M resource) data :
  forall nm st l' st',
    parse_schema_list humanize singularize h data (Some nm) st
      = (inr l', st') ->
    st' = st /\
    List.length l' = List.length data /\
    forall i x,
      nth_error data i = Some x ->
      exists r,
        nth_error l' i = Some (VRes r) /\
        Resource_init humanize singularize h None x
          (Some (relabel humanize singularize (S i) nm)) st = (inr r, st) /\
        name r = Some (relabel humanize singularize (S i) nm).
Proof.
  induction data as [| x data IH]; intros nm st l' st' H.
  - inversion H. subst. split; [reflexivity |]. split; [reflexivity |].
    intros i y Hy. destruct i; discriminate Hy.
  - unfold parse_schema_list in H. simpl in H.
    apply bind_inr in H as (s0 & st0 & Hs0 & H). inversion Hs0. subst s0 st0.
    apply bind_inr in H as (r & st1 & Hr & H).
    pose proof (silent_Resource_init _ _ _ _ _ _ _ _ _ Hr) as E. subst st1.
    apply bind_inr in H as (rest & st2 & Hrest & H).
    inversion H. subst l' st2. clear H.
    destruct (IH _ _ _ _ Hrest) as (E & Hlen & Hnth). subst st'.
    split; [reflexivity |]. split; [simpl; rewrite Hlen; reflexivity |].
    intros i y Hy. destruct i as [| i]; simpl in Hy.
    + inversion Hy. subst y. exists r. split; [reflexivity |].
      split; [exact Hr | exact (Resource_init_name _ _ _ _ _ _ _ Hr)].
    + destruct (Hnth i y Hy) as (ri & Hi & Hinit & Hname).
      exists ri. unfold relabel in *. rewrite Nat.iter_succ_r.
      split; [exact Hi | split; [exact Hinit | exact Hname]].
Qed.

(** X10.  When [parse_schema_list] returns, it has sent nothing and
    returns one node per item of the array, in order: the node at index [i]
    is what the constructor builds from item [i] alone, and it is labelled
    with the name singularized and humanized [i + 1] times, the name being
    reassigned at every turn of the loop. *)
Theorem parse_schema_list_builds_one_node_per_item fuel data nm st l' st' :
  n_parse_list fuel data (Some nm) st = (inr l', st') ->
  st' = st /\
  List.length l' = List.length data /\
  forall i x,
    nth_error data i = Some x ->
    exists r,
      nth_error l' i = Some (VRes r) /\
      n_new fuel None x (Some (relabel humanize singularize (S i) nm)) st
        = (inr r, st) /\
      name r = Some (relabel humanize singularize (S i) nm).
Proof. apply parse_list_with_items. Qed.

Lemma fails_init_true_scalar (h : M resource) u x nm :
  true_scalar x = true ->
  fails (Resource_init humanize singularize h u x nm).
Proof.
  intros Hx st r st' H. destruct x; simpl in Hx; try discriminate Hx;
    simpl in H.
  - subst b. discriminate H.
  - rewrite Hx in H. discriminate H.
  - rewrite Hx in H. discriminate H.
Qed.

Lemma fails_parse_list_true_scalar (h : M resource) data :
  existsb true_scalar data = true ->
  forall nm, fails (parse_schema_list humanize singularize h data nm).
Proof.
  induction data as [| x data IH]; intros Hex nm; [discriminate Hex |].
  unfold parse_schema_list. simpl.
  apply fails_bind_r. intros s0.
  simpl in Hex. destruct (true_scalar x) eqn:Ex.
  - apply fails_bind_l. apply fails_init_true_scalar. exact Ex.
  - apply fails_bind_r. intros r. apply fails_bind_l. apply IH. exact Hex.
Qed.

Lemma loop_fails_at (h : M resource) pre :
  forall key v post acc,
    fails (parse_field humanize singularize
             (Resource_init humanize singularize h None) key v) ->
    fails (parse_dict_with humanize singularize
             (Resource_init humanize singularize h None)
             (pre ++ (key, v) :: post) acc).
Proof.
  induction pre as [| [k0 v0] pre IH]; intros key v post acc Hf; simpl.
  - apply fails_bind_l. exact Hf.
  - apply fails_bind_r. intros x. apply IH. exact Hf.
Qed.

(** X11.  An array that holds a true JSON scalar (a non-zero number,
    [true], a non-empty string) cannot be parsed: the constructor is called
    on every item and raises on such a scalar.  So [parse_schema_dict] never
    returns on an object that has such an array under a key that does not
    end in [_url], and neither does [parse_schema_list] on the array. *)
Theorem array_with_true_scalar_is_not_parsed fuel pre key data post :
  endswith "_url" key = false ->
  existsb true_scalar data = true ->
  (forall st d' st',
     n_parse_dict fuel (pre ++ (key, VList data) :: post) st
       <> (inr d', st')) /\
  (forall nm st l' st', n_parse_list fuel data nm st <> (inr l', st')).
Proof.
  intros Hkey Hex. split.
  - apply loop_fails_at. unfold parse_field. rewrite Hkey.
    apply fails_bind_l.
    exact (fails_parse_list_true_scalar _ data Hex _).
  - intros nm. exact (fails_parse_list_true_scalar _ data Hex nm).
Qed.

End Operations.

(** ** The keys of a parsed schema *)

Lemma In_keys_set k k' v d :
  In k (dict_keys (dict_set k' v d)) <-> k = k' \/ In k (dict_keys d).
Proof.
  induction d as [| [k0 v0] d IH]; simpl.
  - split; [intros [H | []]; left; congruence | intros [H | []]; left; congruence].
  - destruct (k0 =? k')%string eqn:E; simpl.
    + apply String.eqb_eq in E. subst k0. split.
      * intros [H | H]; [left; congruence | right; right; exact H].
      * intros [H | [H | H]]; [left; congruence | left; exact H | right; exact H].
    + rewrite IH. split.
      * intros [H | [H | H]]; [right; left; exact H | left; exact H
                               | right; right; exact H].
      * intros [H | [H | H]]; [right; left; exact H | left; exact H
                               | right; right; exact H].
Qed.

Lemma NoDup_keys_set k v d :
  NoDup (dict_keys d) -> NoDup (dict_keys (dict_set k v d)).
Proof.
  induction d as [| [k0 v0] d IH]; simpl; intros Hnd.
  - constructor; [intros [] | constructor].
  - inversion Hnd as [| x l Hnotin Hnd']; subst.
    destruct (k0 =? k)%string eqn:E; simpl.
    + constructor; assumption.
    + constructor; [| apply IH; exact Hnd'].
      intros Hin. apply In_keys_set in Hin as [Hin | Hin].
      * apply String.eqb_neq in E. congruence.
      * exact (Hnotin Hin).
Qed.

(** [split_head sep s] is a prefix of [s]. *)
Lemma prefix_of_split_head sep s :
  forall x, String.prefix x (split_head sep s) = true ->
            String.prefix x s = true.
Proof.
  induction s as [| b s IH]; intros x H.
  - cbn [split_head] in H. destruct (String.prefix sep ""); exact H.
  - cbn [split_head] in H.
    destruct (String.prefix sep (String b s)).
    + destruct x; [reflexivity | discriminate H].
    + destruct x as [| a x]; [reflexivity |]. simpl in H |- *.
      destruct (ascii_dec a b); [apply IH; exact H | discriminate H].
Qed.

(** Cutting at the first [sep] a second time changes nothing. *)
Lemma split_head_idem sep s :
  split_head sep (split_head sep s) = split_head sep s.
Proof.
  induction s as [| c s IH].
  - cbn [split_head]. destruct (String.prefix sep ""); cbn [split_head];
      destruct (String.prefix sep ""); reflexivity.
  - cbn [split_head]. destruct (String.prefix sep (String c s)) eqn:E.
    + cbn [split_head]. destruct (String.prefix sep ""); reflexivity.
    + cbn [split_head].
      destruct (String.prefix sep (String c (split_head sep s))) eqn:E'.
      * exfalso. destruct sep as [| a x]; [discriminate E |].
        simpl in E, E'. destruct (ascii_dec a c); [| discriminate E'].
        apply prefix_of_split_head in E'. congruence.
      * rewrite IH. reflexivity.
Qed.

Section Schemas.

Variables humanize singularize : string -> string.
Variable uri_variables : string -> list string.
Variable uri_expand : string -> dict -> string.
Variable send : nat -> request -> option response.

Let hook := get_fuel humanize singularize uri_variables uri_expand send.
Let n_verb := node_verb humanize singularize uri_variables uri_expand send.
Let n_parse_dict :=
  node_parse_schema_dict humanize singularize uri_variables uri_expand send.

Lemma loop_keys (h : M resource) items :
  forall acc st d' st',
    parse_dict_with humanize singularize
      (Resource_init humanize singularize h None) items acc st
      = (inr d', st') ->
    NoDup (dict_keys acc) ->
    NoDup (dict_keys d') /\
    forall k, In k (dict_keys d') <->
              In k (dict_keys acc) \/
              In k (map stored_name (dict_keys items)).
Proof.
  induction items as [| [key v] items IH]; intros acc st d' st' H Hnd.
  - simpl in H. inversion H. subst. split; [exact Hnd |].
    intros k. simpl. tauto.
  - simpl in H. apply bind_inr in H as (x & st1 & _ & H).
    destruct (IH _ _ _ _ H (NoDup_keys_set _ x _ Hnd)) as [Hnd' Hin].
    split; [exact Hnd' |]. intros k. rewrite Hin, In_keys_set. simpl.
    unfold stored_name. split.
    + intros [[Hk | Hk] | Hk]; [right; left; congruence | left; exact Hk
                                | right; right; exact Hk].
    + intros [Hk | [Hk | Hk]]; [left; right; exact Hk | left; left; congruence
                                | right; exact Hk].
Qed.

(** X12.  The keys of a parsed schema are distinct, and they are the keys
    of the object cut at their first [_url]: a name is a key of the schema
    exactly when some field of the object is stored under it.  No key of the
    schema contains [_url]; in particular none ends in it. *)
Theorem parsed_schema_keys fuel data st d' st' :
  n_parse_dict fuel data st = (inr d', st') ->
  NoDup (dict_keys d') /\
  (forall k, In k (dict_keys d') <->
             In k (map stored_name (dict_keys data))) /\
  (forall k, In k (dict_keys d') ->
             stored_name k = k /\ endswith "_url" k = false).
Proof.
  intros H.
  destruct (loop_keys _ _ _ _ _ _ H (NoDup_nil _)) as [Hnd Hin].
  assert (Hin' : forall k, In k (dict_keys d') <->
                           In k (map stored_name (dict_keys data))).
  { intros k. rewrite Hin. simpl. tauto. }
  split; [exact Hnd |]. split; [exact Hin' |].
  intros k Hk. apply Hin' in Hk. apply in_map_iff in Hk as (key & <- & _).
  assert (Hw : stored_name (stored_name key) = stored_name key)
    by apply split_head_idem.
  split; [exact Hw | exact (whole_not_link _ Hw)].
Qed.

Lemma dict_get_split k v d :
  dict_get k d = Some v -> exists pre post, d = pre ++ (k, v) :: post.
Proof.
  induction d as [| [k0 v0] d IH]; simpl; intros H; [discriminate H |].
  destruct (k0 =? k)%string eqn:E.
  - apply String.eqb_eq in E. subst k0. inversion H. subst v0.
    exists [], d. reflexivity.
  - destruct (IH H) as (pre & post & ->).
    exists ((k0, v0) :: pre), post. reflexivity.
Qed.

(** The constructor on a non-empty object, whatever [url] it is given. *)
Lemma Resource_init_dict (h : M resource) u d nm st :
  d <> [] ->
  Resource_init humanize singularize h u (VDict d) nm st =
  match parse_schema_dict humanize singularize h d st with
  | (inl e, st1) => (inl e, st1)
  | (inr dd, st1) =>
      (inr (mkResource
              match dict_get "url" d with
              | Some x => Some x
              | None => url_given u
              end (Some dd) nm), st1)
  end.
Proof.
  intros Hd. destruct d as [| kv d0]; [congruence |].
  change (Resource_init humanize singularize h u (VDict (kv :: d0)) nm)
    with (bind (parse_schema_dict humanize singularize h (kv :: d0))
            (fun d' =>
               ret (set_schema
                      match dict_get "url" (kv :: d0) with
                      | Some x =>
                          mkResource (Some x)
                            (schema
                               match u with
                               | Some uv =>
                                   if truthy uv
                                   then mkResource (Some uv) (Some []) nm
                                   else mkResource None None nm
                               | None => mkResource None None nm
                               end) nm
                      | None =>
                          match u with
                          | Some uv =>
                              if truthy uv
                              then mkResource (Some uv) (Some []) nm
                              else mkResource None None nm
                          | None => mkResource None None nm
                          end
                      end d'))).
  unfold bind.
  destruct (parse_schema_dict humanize singularize h (kv :: d0) st)
    as [[e | dd] st1]; [reflexivity |].
  destruct (dict_get "url" (kv :: d0)); [reflexivity |].
  unfold url_given. destruct u as [uv |]; [destruct (truthy uv) |];
    reflexivity.
Qed.

Lemma fails_field_node_list (h : M resource) k c rest :
  endswith "_url" k = false ->
  fails (parse_field humanize singularize
           (Resource_init humanize singularize h None) k
           (VList (VRes c :: rest))).
Proof.
  intros Hk. unfold parse_field. rewrite Hk.
  apply fails_bind_l. simpl.
  apply fails_bind_r. intros s0. apply fails_bind_l.
  apply fails_bind_r. intros _. apply fails_raise.
Qed.

(** X13.  A verb call does not return when the body of the response is an
    object with a non-empty array under a key that does not end in [_url]
    (and that no later field overwrites).  [fetch_schema] turns the array
    into a list of nodes, the constructor of the returned node parses the
    schema once more, and [parse_schema_list] then calls the constructor on a
    node, which raises. *)
Theorem response_with_array_field_never_returns
  fuel method params args kwargs r lg t resp pre key x l post :
  url r = Some (VStr t) ->
  send (List.length lg)
       (request_of uri_variables uri_expand method t params args kwargs)
    = Some resp ->
  text resp <> ""%string ->
  json resp = Some (VDict (pre ++ (key, VList (x :: l)) :: post)) ->
  endswith "_url" key = false ->
  not_overwritten (stored_name key) post ->
  forall r' st',
    n_verb fuel method params args kwargs (mkState r lg) <> (inr r', st').
Proof.
  intros Hu Hsend Htext Hjson Hkey Hno r' st' H.
  unfold n_verb, node_verb in H. fold hook in H.
  rewrite (fetch_resource_unfold humanize singularize uri_variables
             uri_expand send (hook fuel) method params args kwargs
             (mkState r lg) t Hu) in H.
  apply bind_inr in H as (resp' & st1 & H1 & H2).
  unfold session_send in H1. simpl in H1. rewrite Hsend in H1.
  inversion H1. subst resp' st1. clear H1.
  unfold wrap_response in H2.
  apply bind_inr in H2 as (sch & st2 & Hd & H2).
  unfold decode_response in Hd.
  apply bind_inr in Hd as (u0 & st3 & _ & Hd).
  apply String.eqb_neq in Htext. rewrite Htext, Hjson in Hd.
  apply bind_inr in Hd as (data & st4 & Hdata & Hd).
  inversion Hdata. subst data st4. clear Hdata.
  apply bind_inr in Hd as (d' & st5 & Hp & Hd).
  inversion Hd. subst sch st5. clear Hd.
  destruct (loop_field _ _ _ _ _ _ _ _ _ _ _ Hp Hno) as (v & Hv & Hget).
  unfold parse_field in Hv. rewrite Hkey in Hv.
  apply bind_inr in Hv as (l' & st6 & Hl & Hv).
  apply (parse_list_head humanize singularize) in Hl as (c & rest & ->).
  inversion Hv. subst v st6. clear Hv.
  apply bind_inr in H2 as (r1 & st7 & _ & H2).
  apply bind_inr in H2 as (nm & st8 & _ & H2).
  rewrite Resource_init_dict in H2 by (intros ->; discriminate Hget).
  destruct (dict_get_split _ _ _ Hget) as (pre' & post' & E).
  assert (Hw : stored_name (stored_name key) = stored_name key)
    by apply split_head_idem.
  pose proof (loop_fails_at humanize singularize (hook fuel) pre'
                (stored_name key) (VList (VRes c :: rest)) post' []
                (fails_field_node_list (hook fuel) _ c rest
                   (whole_not_link _ Hw))) as Hf.
  unfold parse_schema_dict in H2. rewrite E in H2.
  destruct (parse_dict_with _ _ _ _ _ st8) as [[e | dd] st9] eqn:Hloop;
    [discriminate H2 |].
  exact (Hf _ _ _ Hloop).
Qed.

(** X14.  The empty array.  When the body of a successful response is
    [[]], the verb call returns after its one request, and the node it
    returns has the expanded URL and the empty mapping as schema: the code
    does not count it as loaded. *)
Theorem empty_array_gives_unloaded_node
  fuel method params args kwargs r lg t nm resp :
  url r = Some (VStr t) ->
  name r = Some nm ->
  let req := request_of uri_variables uri_expand method t params args kwargs in
  send (List.length lg) req = Some resp ->
  200 <= status_code resp < 300 ->
  text resp <> ""%string ->
  json resp = Some (VList []) ->
  req_url req <> ""%string ->
  let node :=
    mkResource (Some (VStr (req_url req))) (Some []) (Some (humanize nm)) in
  n_verb fuel method params args kwargs (mkState r lg)
    = (inr node, mkState r (req :: lg)) /\
  is_loaded node = false.
Proof.
  intros Hu Hn req Hsend Hst Htext Hjson Hne node.
  split; [| reflexivity].
  unfold n_verb, node_verb. fold hook.
  rewrite (fetch_resource_unfold humanize singularize uri_variables
             uri_expand send (hook fuel) method params args kwargs
             (mkState r lg) t Hu).
  fold req. unfold bind at 1. unfold session_send. simpl.
  rewrite Hsend. unfold wrap_response, decode_response, handle_status.
  replace ((200 <=? status_code resp) && (status_code resp <? 300))
    with true by (symmetry; apply andb_true_iff; split;
                  [apply Z.leb_le | apply Z.ltb_lt]; lia).
  apply String.eqb_neq in Htext. rewrite Htext, Hjson.
  unfold bind, get_self. simpl. rewrite Hn. simpl.
  apply String.eqb_neq in Hne. unfold ret. simpl.
  change (uri_expand t (bound_kwargs args (uri_variables t) kwargs))
    with (req_url req).
  rewrite Hne. reflexivity.
Qed.

(** X15.  A body that is neither an object nor an array.  After a
    successful status, a body that does not decode raises the decoder's
    [ValueError], and a body that decodes to a JSON scalar raises the
    "Unknown type of response" exception; in both cases the one request has
    been sent and the receiver is unchanged. *)
Theorem scalar_or_malformed_body_raises
  fuel method params args kwargs r lg t resp :
  url r = Some (VStr t) ->
  let req := request_of uri_variables uri_expand method t params args kwargs in
  send (List.length lg) req = Some resp ->
  200 <= status_code resp < 300 ->
  text resp <> ""%string ->
  (json resp = None ->
   n_verb fuel method params args kwargs (mkState r lg)
     = (inl ValueError, mkState r (req :: lg))) /\
  (forall v, json resp = Some v -> is_scalar v = true ->
   n_verb fuel method params args kwargs (mkState r lg)
     = (inl UnknownResponse, mkState r (req :: lg))).
Proof.
  intros Hu req Hsend Hst Htext.
  assert (Hun :
    n_verb fuel method params args kwargs (mkState r lg) =
    bind (decode_response humanize singularize (hook fuel) resp)
      (fun sch =>
         r0 <- get_self ;;
         nm <- py_humanize humanize (name r0) ;;
         Resource_init humanize singularize (hook fuel)
           (Some (VStr (req_url req))) sch (Some nm))
      (mkState r (req :: lg))).
  { unfold n_verb, node_verb. fold hook.
    rewrite (fetch_resource_unfold humanize singularize uri_variables
               uri_expand send (hook fuel) method params args kwargs
               (mkState r lg) t Hu).
    fold req. unfold bind at 1. unfold session_send. simpl.
    rewrite Hsend. reflexivity. }
  rewrite Hun. unfold decode_response, handle_status.
  replace ((200 <=? status_code resp) && (status_code resp <? 300))
    with true by (symmetry; apply andb_true_iff; split;
                  [apply Z.leb_le | apply Z.ltb_lt]; lia).
  apply String.eqb_neq in Htext. rewrite Htext.
  split.
  - intros Hj. rewrite Hj. reflexivity.
  - intros v Hj Hv. rewrite Hj.
    destruct v; try discriminate Hv; reflexivity.
Qed.

Lemma dict_set_fresh k v acc :
  ~ In k (dict_keys acc) -> dict_set k v acc = acc ++ [(k, v)].
Proof.
  induction acc as [| [k0 v0] acc IH]; simpl; intros Hn; [reflexivity |].
  destruct (k0 =? k)%string eqn:E.
  - apply String.eqb_eq in E. exfalso. apply Hn. left. exact E.
  - rewrite IH; [reflexivity |]. intros Hin. apply Hn. right. exact Hin.
Qed.

Lemma field_settled (h : M resource) k v st :
  stored_name k = k -> settled v = true ->
  parse_field humanize singularize
    (Resource_init humanize singularize h None) k v st = (inr v, st).
Proof.
  intros Hk Hv. unfold parse_field. rewrite (whole_not_link k Hk).
  destruct v; try discriminate Hv; try reflexivity.
  destruct l; [reflexivity | discriminate Hv].
Qed.

(** Parsing a settled schema again gives it back. *)
Lemma reparse_settled (h : M resource) d :
  forall acc st,
    (forall k v, In (k, v) d -> stored_name k = k /\ settled v = true) ->
    NoDup (dict_keys acc ++ dict_keys d) ->
    parse_dict_with humanize singularize
      (Resource_init humanize singularize h None) d acc st
    = (inr (acc ++ d), st).
Proof.
  induction d as [| [k v] d IH]; intros acc st Hall Hnd; simpl.
  - rewrite app_nil_r. reflexivity.
  - destruct (Hall k v (or_introl eq_refl)) as [Hk Hv].
    unfold bind. rewrite (field_settled h k v st Hk Hv).
    fold (stored_name k). rewrite Hk.
    simpl in Hnd. pose proof (NoDup_remove_2 _ _ _ Hnd) as Hnotin.
    rewrite dict_set_fresh
      by (intros Hin; apply Hnotin, in_or_app; left; exact Hin).
    rewrite IH.
    + rewrite <- app_assoc. reflexivity.
    + intros k' v' Hin. apply Hall. right. exact Hin.
    + unfold dict_keys in *. rewrite map_app, <- app_assoc. exact Hnd.
Qed.

(** A verb call on a response whose parsed schema is settled. *)
Lemma fetch_parsed_object
  fuel method params args kwargs r lg t nm resp d d' st1 :
  url r = Some (VStr t) ->
  name r = Some nm ->
  let req := request_of uri_variables uri_expand method t params args kwargs in
  send (List.length lg) req = Some resp ->
  200 <= status_code resp < 300 ->
  text resp <> ""%string ->
  json resp = Some (VDict d) ->
  d <> [] ->
  n_parse_dict fuel d (mkState r (req :: lg)) = (inr d', st1) ->
  (forall k v, In (k, v) d' -> settled v = true) ->
  let node :=
    mkResource
      match dict_get "url" d' with
      | Some x => Some x
      | None => url_given (Some (VStr (req_url req)))
      end (Some d') (Some (humanize nm)) in
  n_verb fuel method params args kwargs (mkState r lg)
    = (inr node, mkState r (req :: lg)) /\
  is_loaded node = true.
Proof.
  intros Hu Hn req Hsend Hst Htext Hjson Hd Hp Hall node.
  pose proof (silent_parse_schema_dict humanize singularize (hook fuel)
                d _ _ _ Hp) as E. subst st1.
  assert (Hd' : d' <> []).
  { apply (loop_nonempty humanize singularize (hook fuel) _ _ _ _ _ Hp).
    left. exact Hd. }
  destruct (loop_keys (hook fuel) _ _ _ _ _ Hp (NoDup_nil _)) as [Hnd Hin].
  assert (Hre : forall st,
             parse_schema_dict humanize singularize (hook fuel) d' st
             = (inr d', st)).
  { intros st. unfold parse_schema_dict.
    rewrite (reparse_settled (hook fuel) d' [] st); [reflexivity | | exact Hnd].
    intros k v Hkv. split; [| exact (Hall k v Hkv)].
    assert (Hk : In k (dict_keys d'))
      by (apply in_map_iff; exists (k, v); split; [reflexivity | exact Hkv]).
    apply Hin in Hk as [[] | Hk].
    apply in_map_iff in Hk as (key & <- & _). apply split_head_idem. }
  split.
  - unfold n_verb, node_verb. fold hook.
    rewrite (fetch_resource_unfold humanize singularize uri_variables
               uri_expand send (hook fuel) method params args kwargs
               (mkState r lg) t Hu).
    fold req. unfold bind at 1. unfold session_send. simpl.
    rewrite Hsend. unfold wrap_response, decode_response, handle_status.
    replace ((200 <=? status_code resp) && (status_code resp <? 300))
      with true by (symmetry; apply andb_true_iff; split;
                    [apply Z.leb_le | apply Z.ltb_lt]; lia).
    apply String.eqb_neq in Htext. rewrite Htext, Hjson.
    unfold bind at 1. unfold bind at 1. unfold ret at 1. unfold bind at 1.
    unfold ret at 1. unfold bind at 1.
    unfold n_parse_dict, node_parse_schema_dict in Hp. fold hook in Hp.
    rewrite Hp. unfold ret at 1. unfold bind at 1. unfold get_self at 1.
    cbn [self]. rewrite Hn. unfold bind at 1. unfold py_humanize, ret at 1.
    rewrite Resource_init_dict by exact Hd'. rewrite Hre. reflexivity.
  - unfold is_loaded. simpl. destruct d'; congruence.
Qed.

(** X16.  The round trip of a verb call.  When the body of a successful
    response is a non-empty object whose parsed schema holds only scalars,
    nodes and empty lists, the call returns after its one request, and the
    node it returns is loaded with exactly that parsed schema: parsing the
    schema a second time in the constructor changes nothing.  Its [url] is
    the value stored under [url] when there is one, else the expanded URL;
    its label is the humanized label of the receiver. *)
Theorem verb_call_returns_the_parsed_object
  fuel method params args kwargs r lg t nm resp d d' st1 :
  url r = Some (VStr t) ->
  name r = Some nm ->
  let req := request_of uri_variables uri_expand method t params args kwargs in
  send (List.length lg) req = Some resp ->
  200 <= status_code resp < 300 ->
  text resp <> ""%string ->
  json resp = Some (VDict d) ->
  d <> [] ->
  n_parse_dict fuel d (mkState r (req :: lg)) = (inr d', st1) ->
  (forall k v, In (k, v) d' -> settled v = true) ->
  let node :=
    mkResource
      match dict_get "url" d' with
      | Some x => Some x
      | None => url_given (Some (VStr (req_url req)))
      end (Some d') (Some (humanize nm)) in
  n_verb fuel method params args kwargs (mkState r lg)
    = (inr node, mkState r (req :: lg)) /\
  is_loaded node = true.
Proof. apply fetch_parsed_object. Qed.

(** X17.  The lazy load.  On an unloaded node, when the response to the
    GET of its [url] is a success whose body is a non-empty object with a
    settled parsed schema, the first [keys()] sends that one request, stores
    the parsed schema in the node, whose [url] and label stay as they were,
    and lists the keys of that schema; the node is loaded afterwards. *)
Theorem lazy_load_installs_the_parsed_object
  fuel r lg t nm resp d d' st1 :
  url r = Some (VStr t) ->
  name r = Some nm ->
  schema r = Some [] ->
  let req := request_of uri_variables uri_expand "GET" t [] [] [] in
  send (List.length lg) req = Some resp ->
  200 <= status_code resp < 300 ->
  text resp <> ""%string ->
  json resp = Some (VDict d) ->
  d <> [] ->
  n_parse_dict fuel d (mkState r (req :: lg)) = (inr d', st1) ->
  (forall k v, In (k, v) d' -> settled v = true) ->
  let r1 := mkResource (Some (VStr t)) (Some d') (Some nm) in
  node_keys humanize singularize uri_variables uri_expand send (S fuel)
    (mkState r lg) = (inr (dict_keys d'), mkState r1 (req :: lg)) /\
  is_loaded r1 = true.
Proof.
  intros Hu Hn Hs req Hsend Hst Htext Hjson Hd Hp Hall r1.
  destruct (fetch_parsed_object fuel "GET" [] [] [] r lg t nm resp d d' st1
              Hu Hn Hsend Hst Htext Hjson Hd Hp Hall) as [Hv Hl].
  split; [| exact Hl].
  unfold node_keys, keys. unfold bind at 1.
  rewrite ensure_unloaded by exact Hs.
  change (get_fuel humanize singularize uri_variables uri_expand send
            (S fuel) (mkState r lg))
    with (n_verb fuel "GET" [] [] [] (mkState r lg)).
  rewrite Hv. cbn [schema self log]. unfold set_schema. rewrite Hu, Hn.
  reflexivity.
Qed.

End Schemas.

(** * Concrete runs of the further properties *)



Lemma repr_loads_the_node_like_keys_witness :
  T_repr (always None "") 0 (mkState user_node [])
    = (inr "<Octokit User(login, id)>"%string, mkState user_node []).
Proof.
  destruct (repr_loads_the_node_like_keys capitalize drop_s tpl_variables
              tpl_expand (always None "") 0%nat user_node []) as [H _].
  exact (H user_schema eq_refl eq_refl).
Defined.


Lemma verb_call_keeps_the_receiver_witness :
  self (snd (T_verb (fun _ _ => Some (mkResponse 500 "" None)) 1 "PUT" [] [] []
               (mkState root []))) = root.
Proof.
  apply (verb_call_keeps_the_receiver capitalize drop_s tpl_variables
           tpl_expand (fun _ _ => Some (mkResponse 500 "" None)) 1%nat
           "PUT" [] [] [] root [] (VStr "https://x/")).
  reflexivity.
Defined.

Lemma verb_call_returns_after_one_request_witness :
  let node := mkResource (Some (VStr "https://x/")) (Some []) (Some "Root") in
  let st' := mkState root [mkRequest "DELETE" "https://x/" []] in
  T_verb (always None "") 1 "DELETE" [] [] [] (mkState root [])
    = (inr node, st') /\
  exists nm, name root = Some nm /\ name node = Some (capitalize nm).
Proof.
  intros node st'. split; [reflexivity |].
  destruct (verb_call_returns_after_one_request capitalize drop_s
              tpl_variables tpl_expand (always None "") 1%nat "DELETE"
              [] [] [] root [] "https://x/" node st' eq_refl eq_refl)
    as [_ H].
  exact H.
Defined.


Lemma parse_schema_list_builds_one_node_per_item_witness :
  let data := [VDict [("id", VInt 1)]; VDict [("id", VInt 2)]] in
  let l' :=
    [VRes (mkResource None (Some [("id", VInt 1)]) (Some "Item"));
     VRes (mkResource None (Some [("id", VInt 2)]) (Some "Item"))] in
  let st := mkState root [] in
  T_parse_list (always None "") 0 data (Some "items") st = (inr l', st) /\
  List.length l' = List.length data /\
  forall i x,
    nth_error data i = Some x ->
    exists r,
      nth_error l' i = Some (VRes r) /\
      T_new (always None "") 0 None x
        (Some (relabel capitalize drop_s (S i) "items")) st = (inr r, st) /\
      name r = Some (relabel capitalize drop_s (S i) "items").
Proof.
  intros data l' st. split; [reflexivity |].
  destruct (parse_schema_list_builds_one_node_per_item capitalize drop_s
              tpl_variables tpl_expand (always None "") 0%nat data "items"
              st l' st eq_refl) as (_ & Hlen & Hnth).
  split; [exact Hlen | exact Hnth].
Defined.

Lemma array_with_true_scalar_is_not_parsed_witness :
  (forall st d' st',
     T_parse_dict (always None "") 0 [("topics", VList [VStr "a"; VStr "b"])]
       st <> (inr d', st')) /\
  (forall nm st l' st',
     T_parse_list (always None "") 0 [VStr "a"; VStr "b"] nm st
       <> (inr l', st')).
Proof.
  apply (array_with_true_scalar_is_not_parsed capitalize drop_s tpl_variables
           tpl_expand (always None "") 0%nat [] "topics"
           [VStr "a"; VStr "b"] []); reflexivity.
Defined.

Lemma parsed_schema_keys_witness :
  let data := [("a_url", VStr "u"); ("b", VInt 1); ("a", VNone)] in
  let d' := [("a", VNone); ("b", VInt 1)] in
  T_parse_dict (always None "") 0 data (mkState root [])
    = (inr d', mkState root []) /\
  NoDup (dict_keys d') /\
  (forall k, In k (dict_keys d') <->
             In k (map stored_name (dict_keys data))) /\
  (forall k, In k (dict_keys d') ->
             stored_name k = k /\ endswith "_url" k = false).
Proof.
  intros data d'. split; [reflexivity |].
  apply (parsed_schema_keys capitalize drop_s tpl_variables tpl_expand
           (always None "") 0%nat data (mkState root []) d'
           (mkState root [])).
  reflexivity.
Defined.

Lemma response_with_array_field_never_returns_witness :
  let body := VDict [("items", VList [VDict [("id", VInt 1)]])] in
  T_verb (ok_json body) 1 "GET" [] [] [] (mkState root [])
    = (inl KeyError, mkState root [get_root]) /\
  forall r' st',
    T_verb (ok_json body) 1 "GET" [] [] [] (mkState root []) <> (inr r', st').
Proof.
  intros body. split; [reflexivity |].
  apply (response_with_array_field_never_returns capitalize drop_s
           tpl_variables tpl_expand (ok_json body) 1%nat "GET" [] [] []
           root [] "https://x/" (mkResponse 200 "..." (Some body))
           [] "items" (VDict [("id", VInt 1)]) [] []).
  - reflexivity.
  - reflexivity.
  - discriminate.
  - reflexivity.
  - reflexivity.
  - constructor.
Defined.

Lemma empty_array_gives_unloaded_node_witness :
  let node := mkResource (Some (VStr "https://x/")) (Some []) (Some "Root") in
  T_verb (ok_json (VList [])) 1 "GET" [] [] [] (mkState root [])
    = (inr node, mkState root [get_root]) /\
  is_loaded node = false.
Proof.
  intros node.
  apply (empty_array_gives_unloaded_node capitalize drop_s tpl_variables
           tpl_expand (ok_json (VList [])) 1%nat "GET" [] [] [] root []
           "https://x/" "root" (mkResponse 200 "..." (Some (VList [])))).
  - reflexivity.
  - reflexivity.
  - reflexivity.
  - simpl. lia.
  - discriminate.
  - reflexivity.
  - discriminate.
Defined.

Lemma scalar_or_malformed_body_raises_witness :
  T_verb (ok_json (VInt 5)) 1 "GET" [] [] [] (mkState root [])
    = (inl UnknownResponse, mkState root [get_root]).
Proof.
  destruct (scalar_or_malformed_body_raises capitalize drop_s tpl_variables
              tpl_expand (ok_json (VInt 5)) 1%nat "GET" [] [] [] root []
              "https://x/" (mkResponse 200 "..." (Some (VInt 5)))
              eq_refl eq_refl) as [_ H].
  - simpl. lia.
  - discriminate.
  - exact (H (VInt 5) eq_refl eq_refl).
Defined.

Lemma verb_call_returns_the_parsed_object_witness :
  let node :=
    mkResource (Some (VStr "https://x/")) (Some user_parsed) (Some "Root") in
  T_verb (ok_json user_body) 1 "GET" [] [] [] (mkState root [])
    = (inr node, mkState root [get_root]) /\
  is_loaded node = true.
Proof.
  intros node.
  apply (verb_call_returns_the_parsed_object capitalize drop_s tpl_variables
           tpl_expand (ok_json user_body) 1%nat "GET" [] [] [] root []
           "https://x/" "root" (mkResponse 200 "..." (Some user_body))
           [("login", VStr "a"); ("repos_url", VStr "https://x/repos");
            ("plan", VDict [("name", VStr "free")])]
           user_parsed (mkState root [get_root])).
  - reflexivity.
  - reflexivity.
  - reflexivity.
  - simpl. lia.
  - discriminate.
  - reflexivity.
  - discriminate.
  - reflexivity.
  - intros k v [H | [H | [H | []]]]; inversion H; reflexivity.
Defined.

Lemma lazy_load_installs_the_parsed_object_witness :
  let r1 :=
    mkResource (Some (VStr "https://x/")) (Some user_parsed) (Some "root") in
  T_keys (ok_json user_body) 1 (mkState root [])
    = (inr ["login"; "repos"; "plan"]%string, mkState r1 [get_root]) /\
  is_loaded r1 = true.
Proof.
  intros r1.
  apply (lazy_load_installs_the_parsed_object capitalize drop_s tpl_variables
           tpl_expand (ok_json user_body) 0%nat root []
           "https://x/" "root" (mkResponse 200 "..." (Some user_body))
           [("login", VStr "a"); ("repos_url", VStr "https://x/repos");
            ("plan", VDict [("name", VStr "free")])]
           user_parsed (mkState root [get_root])).
  - reflexivity.
  - reflexivity.
  - reflexivity.
  - reflexivity.
  - simpl. lia.
  - discriminate.
  - reflexivity.
  - discriminate.
  - reflexivity.
  - intros k v [H | [H | [H | []]]]; inversion H; reflexivity.
Defined.
